(** * Session lifecycle of the [AuthProvider] component

    A shallow embedding of the session core of the application: the
    [AuthProvider] React component (its state, its effects and the three
    operations [login], [logout] and [refreshUser] it hands out through the
    context) and the arguments it passes to the [useSessionTimeout] hook.

    The component is asynchronous JavaScript.  Its functions are embedded as
    programs of a small free monad [Prog]: a program is a tree of calls to the
    collaborators (Token Store, router, React state setters, console) and of
    awaited network requests, with JavaScript's [throw], [try]/[catch] and
    [try]/[finally].  Three interpreters run these programs:
    - [run] answers every awaited request from a network oracle and runs the
      program to its end;
    - [exec] runs one event-loop turn: up to the first awaited request;
    - [job] runs one job: up to the first [await] of any kind.  The
      event-driven system [Sys] is built on it: React may commit a render
      between two jobs, so the worlds of [Sys] are the states a render may
      see.

    Properties of programs are proved in a small program logic, [wp], with
    one rule per construct and soundness for the three interpreters.

    The rates screen [RatesManagement], a consumer of the session, is
    embedded next to it: its state, its handlers as state transformers,
    [fetchCarrierData] in a state-and-exception monad, and the pagination
    arithmetic of its render. *)

From Stdlib Require Import String ZArith Bool List.
From Stdlib Require Import Lia.
From Stdlib Require QArith.
Import ListNotations.
Local Open Scope string_scope.
Local Open Scope Z_scope.

(** ** Data *)

(** [interface User]: the open-ended extra attributes are not modelled. *)
Record User := mkUser {
  id : Z;
  email : string;
  name : option string;
  user_role : option string
}.

(** A thrown JavaScript value. *)
Inductive exn := Error (message : string).

(** What a call or an awaited promise gives back: it throws (rejects) or it
    returns (resolves). *)
Definition result (X : Type) : Type := (exn + X)%type.

(** The value of [getTokenExpirationInfo()]; the component only stores it. *)
Definition TokenInfo := Z.

(** The values [JSON.parse] can give for the stored user id. *)
Inductive JVal :=
| JNull
| JBool (b : bool)
| JNum (n : Z)
| JStr (s : string)
| JObject.

(** JavaScript truthiness, for the types the component tests. *)
Definition truthy_string (s : string) : bool :=
  match s with EmptyString => false | _ => true end.

Definition truthy_opt_string (o : option string) : bool :=
  match o with Some s => truthy_string s | None => false end.

Definition truthy_jval (v : JVal) : bool :=
  match v with
  | JNull => false
  | JBool b => b
  | JNum n => negb (n =? 0)
  | JStr s => truthy_string s
  | JObject => true
  end.

(** An object is always truthy: [!!user], [if (storedUser)]. *)
Definition truthy_user (u : option User) : bool :=
  match u with Some _ => true | None => false end.

(** ** Network *)

(** The two [fetch] calls of the component, with what their template
    literals interpolate. *)
Inductive Request :=
| ReqLogout (api_url : option string) (bearer : option string)
| ReqGetUser (api_url : option string) (userId : JVal) (bearer : option string).

(** The body of the [GetUser] response as the component reads it:
    [data.details?.[0]]. *)
Record GetUserBody := mkBody { details : option (list User) }.

(** A [fetch] response: its status and what [response.json()] resolves to. *)
Record HttpResponse := mkResponse {
  status : Z;
  json : result GetUserBody
}.

(** [response.ok] as the Fetch standard defines it. *)
Definition ok (r : HttpResponse) : bool :=
  (200 <=? status r) && (status r <=? 299).

Record Credentials := mkCredentials {
  cred_email : string;
  cred_password : string;
  cred_rememberMe : bool
}.

(** What [loginUser] resolves to: [{user, token}]. *)
Record LoginData := mkLoginData {
  data_user : option User;
  data_token : string
}.

(** ** The world the component acts on *)

Inductive ConsoleLevel := Log | Warn | ConsoleError.

(** The callback [login] hands to [setTimeout]; it closes over [data.user]. *)
Inductive TimerCallback := RedirectByRole (u : option User).

Record World := mkWorld {
  (* Token Store *)
  token : option string;
  rememberMe : bool;
  cached_user : option User;
  expiration : option TokenInfo;
  (* localStorage, for the key the component reads itself *)
  localStorage : string -> option string;
  (* React state of AuthProvider *)
  user : option User;
  loading : bool;
  mounted : bool;
  tokenInfo : option TokenInfo;
  (* effects on the outside *)
  pushes : list string;
  timers : list (TimerCallback * Z);
  console : list (ConsoleLevel * string);
  requests : list Request;
  logins : list Credentials
}.

Definition set_token v w :=
  mkWorld v (rememberMe w) (cached_user w) (expiration w) (localStorage w)
    (user w) (loading w) (mounted w) (tokenInfo w) (pushes w) (timers w)
    (console w) (requests w) (logins w).
Definition set_rememberMe v w :=
  mkWorld (token w) v (cached_user w) (expiration w) (localStorage w)
    (user w) (loading w) (mounted w) (tokenInfo w) (pushes w) (timers w)
    (console w) (requests w) (logins w).
Definition set_cached_user v w :=
  mkWorld (token w) (rememberMe w) v (expiration w) (localStorage w)
    (user w) (loading w) (mounted w) (tokenInfo w) (pushes w) (timers w)
    (console w) (requests w) (logins w).
Definition set_user v w :=
  mkWorld (token w) (rememberMe w) (cached_user w) (expiration w)
    (localStorage w) v (loading w) (mounted w) (tokenInfo w) (pushes w)
    (timers w) (console w) (requests w) (logins w).
Definition set_loading v w :=
  mkWorld (token w) (rememberMe w) (cached_user w) (expiration w)
    (localStorage w) (user w) v (mounted w) (tokenInfo w) (pushes w)
    (timers w) (console w) (requests w) (logins w).
Definition set_mounted v w :=
  mkWorld (token w) (rememberMe w) (cached_user w) (expiration w)
    (localStorage w) (user w) (loading w) v (tokenInfo w) (pushes w)
    (timers w) (console w) (requests w) (logins w).
Definition set_tokenInfo v w :=
  mkWorld (token w) (rememberMe w) (cached_user w) (expiration w)
    (localStorage w) (user w) (loading w) (mounted w) v (pushes w)
    (timers w) (console w) (requests w) (logins w).
Definition set_pushes v w :=
  mkWorld (token w) (rememberMe w) (cached_user w) (expiration w)
    (localStorage w) (user w) (loading w) (mounted w) (tokenInfo w) v
    (timers w) (console w) (requests w) (logins w).
Definition set_timers v w :=
  mkWorld (token w) (rememberMe w) (cached_user w) (expiration w)
    (localStorage w) (user w) (loading w) (mounted w) (tokenInfo w)
    (pushes w) v (console w) (requests w) (logins w).
Definition set_console v w :=
  mkWorld (token w) (rememberMe w) (cached_user w) (expiration w)
    (localStorage w) (user w) (loading w) (mounted w) (tokenInfo w)
    (pushes w) (timers w) v (requests w) (logins w).
Definition set_requests v w :=
  mkWorld (token w) (rememberMe w) (cached_user w) (expiration w)
    (localStorage w) (user w) (loading w) (mounted w) (tokenInfo w)
    (pushes w) (timers w) (console w) v (logins w).
Definition set_logins v w :=
  mkWorld (token w) (rememberMe w) (cached_user w) (expiration w)
    (localStorage w) (user w) (loading w) (mounted w) (tokenInfo w)
    (pushes w) (timers w) (console w) (requests w) v.

(** ** Calls *)

(** The synchronous calls the component makes.  [Call X] is a call that
    returns an [X]. *)
Inductive Call : Type -> Type :=
(* @/lib/auth *)
| GetToken : Call (option string)
| IsAuthenticated : Call bool
| GetUserFromStorage : Call (option User)
| GetRememberMe : Call bool
| GetTokenExpirationInfo : Call (option TokenInfo)
| RemoveToken : Call unit
| RemoveUser : Call unit
| PersistLogin (d : LoginData) (remember : bool) : Call unit
(* browser *)
| TypeofWindowUndefined : Call bool
| ProcessEnvApiUrl : Call (option string)
| LocalStorageGetItem (key : string) : Call (option string)
| JSONParse (text : string) : Call JVal
| ConsoleCall (level : ConsoleLevel) (msg : string) : Call unit
| SetTimeout (cb : TimerCallback) (ms : Z) : Call unit
(* next/navigation *)
| RouterPush (path : string) : Call unit
(* React state setters *)
| SetUserState (u : option User) : Call unit
| SetLoading (b : bool) : Call unit
| SetMounted (b : bool) : Call unit
| SetTokenInfo (i : option TokenInfo) : Call unit.

(** The collaborators whose calls may throw. *)
Inductive Callee :=
| CGetToken | CIsAuthenticated | CGetUser | CGetRememberMe
| CGetTokenExpirationInfo | CRemoveToken | CRemoveUser | CPersistLogin
| CLocalStorage | CRouterPush.

(** The environment of a run: build-time configuration, whether the code runs
    in a browser, what [JSON.parse] gives, and which collaborator calls throw
    (and what). *)
Record Env := mkEnv {
  NEXT_PUBLIC_API_URL : option string;
  window_defined : bool;
  JSON_parse : string -> result JVal;
  faults : Callee -> option exn
}.

(** A collaborator call either throws what [faults] says or does its work. *)
Definition guarded (env : Env) (c : Callee) {X} (r : X * World) (w : World)
  : result X * World :=
  match faults env c with
  | Some e => (inl e, w)
  | None => (inr (fst r), snd r)
  end.

(** Modelled from the spec: the functions of [@/lib/auth] ([getToken],
    [isAuthenticated], [getUser], [getRememberMe], [getTokenExpirationInfo],
    [removeToken], [removeUser] and what [loginUser] persists) are not in the
    sources.  The Token Store "persists a bearer token, a remember-me flag and
    a cached user record; exposes read/write/clear and an expiration query";
    [isAuthenticated()] is false exactly when the store holds no token; a
    successful login "persists token + remember-me flag + user snapshot". *)
Definition interp (env : Env) {X} (c : Call X) (w : World) : result X * World :=
  match c in Call X return result X * World with
  | GetToken => guarded env CGetToken (token w, w) w
  | IsAuthenticated => guarded env CIsAuthenticated (truthy_opt_string (token w), w) w
  | GetUserFromStorage => guarded env CGetUser (cached_user w, w) w
  | GetRememberMe => guarded env CGetRememberMe (rememberMe w, w) w
  | GetTokenExpirationInfo => guarded env CGetTokenExpirationInfo (expiration w, w) w
  | RemoveToken => guarded env CRemoveToken (tt, set_token None w) w
  | RemoveUser => guarded env CRemoveUser (tt, set_cached_user None w) w
  | PersistLogin d remember =>
      guarded env CPersistLogin
        (tt, set_cached_user (data_user d)
               (set_rememberMe remember (set_token (Some (data_token d)) w))) w
  | TypeofWindowUndefined => (inr (negb (window_defined env)), w)
  | ProcessEnvApiUrl => (inr (NEXT_PUBLIC_API_URL env), w)
  | LocalStorageGetItem key => guarded env CLocalStorage (localStorage w key, w) w
  | JSONParse text => (JSON_parse env text, w)
  | ConsoleCall level msg => (inr tt, set_console (console w ++ [(level, msg)]) w)
  | SetTimeout cb ms => (inr tt, set_timers (timers w ++ [(cb, ms)]) w)
  | RouterPush path => guarded env CRouterPush (tt, set_pushes (pushes w ++ [path]) w) w
  | SetUserState u => (inr tt, set_user u w)
  | SetLoading b => (inr tt, set_loading b w)
  | SetMounted b => (inr tt, set_mounted b w)
  | SetTokenInfo i => (inr tt, set_tokenInfo i w)
  end.

(** ** Programs *)

(** An asynchronous function body.  Every call and every awaited promise
    continues with its [result], so that a [try] around it sees the throw.
    [Later k] is the suspension of an [await] on a promise that is already
    settled: [k] runs in a later job of the same event-loop turn. *)
Inductive Prog (R : Type) : Type :=
| Ret (r : R)
| Throw (e : exn)
| Do {X : Type} (c : Call X) (k : result X -> Prog R)
| Fetch (req : Request) (k : result HttpResponse -> Prog R)
| LoginRequest (c : Credentials) (k : result LoginData -> Prog R)
| Later (k : Prog R).

Arguments Ret {R} r.
Arguments Throw {R} e.
Arguments Do {R X} c k.
Arguments Fetch {R} req k.
Arguments LoginRequest {R} c k.
Arguments Later {R} k.

Fixpoint bind {A B} (p : Prog A) (f : A -> Prog B) : Prog B :=
  match p with
  | Ret a => f a
  | Throw e => Throw e
  | Do c k => Do c (fun x => bind (k x) f)
  | Fetch req k => Fetch req (fun x => bind (k x) f)
  | LoginRequest c k => LoginRequest c (fun x => bind (k x) f)
  | Later k => Later (bind k f)
  end.

(** [try { p } catch (e) { h e }] *)
Fixpoint try_catch {A} (p : Prog A) (h : exn -> Prog A) : Prog A :=
  match p with
  | Ret a => Ret a
  | Throw e => h e
  | Do c k => Do c (fun x => try_catch (k x) h)
  | Fetch req k => Fetch req (fun x => try_catch (k x) h)
  | LoginRequest c k => LoginRequest c (fun x => try_catch (k x) h)
  | Later k => Later (try_catch k h)
  end.

(** [try { p } finally { f }]: [f] runs however [p] ends, also on its
    [return]. *)
Fixpoint try_finally {A} (p : Prog A) (f : Prog unit) : Prog A :=
  match p with
  | Ret a => bind f (fun _ => Ret a)
  | Throw e => bind f (fun _ => Throw e)
  | Do c k => Do c (fun x => try_finally (k x) f)
  | Fetch req k => Fetch req (fun x => try_finally (k x) f)
  | LoginRequest c k => LoginRequest c (fun x => try_finally (k x) f)
  | Later k => Later (try_finally k f)
  end.

Definition settle {X} (r : result X) : Prog X :=
  match r with inl e => Throw e | inr x => Ret x end.

(** A call; what it throws propagates. *)
Definition call {X} (c : Call X) : Prog X := Do c settle.

(** [await fetch(...)] *)
Definition fetch (req : Request) : Prog HttpResponse := Fetch req settle.

(** [await p()] for an asynchronous function [p] of the component: [p]
    runs, and when it is over, normally or not, the caller resumes in a
    later job.  The state the callee leaves is there between the two.

    The component has three more such awaits, [await logout()] (twice) and
    [await response.json()].  No statement of the caller runs between the
    settling of the promise and the end of the caller, or between the
    answer of the network and the [await], so the extra job shows no state
    that is not there anyway, and they are not given one.  The other awaits
    wait for the network: [Fetch] and [LoginRequest]. *)
Fixpoint awaited {A} (p : Prog A) : Prog A :=
  match p with
  | Ret a => Later (Ret a)
  | Throw e => Later (Throw e)
  | Do c k => Do c (fun x => awaited (k x))
  | Fetch req k => Fetch req (fun x => awaited (k x))
  | LoginRequest c k => LoginRequest c (fun x => awaited (k x))
  | Later k => Later (awaited k)
  end.

Declare Scope prog_scope.
Delimit Scope prog_scope with prog.
Notation "x <- p ;; q" := (bind p (fun x => q))
  (at level 61, p at next level, right associativity) : prog_scope.
Notation "p ;; q" := (bind p (fun _ => q))
  (at level 61, right associativity) : prog_scope.
Local Open Scope prog_scope.

(** ** The component *)

Module AuthProvider.

(** [const logout = async (): Promise<boolean>] *)
Definition logout : Prog bool :=
  try_catch
    (token <- call GetToken ;;
     (if truthy_opt_string token then
        try_catch
          (api <- call ProcessEnvApiUrl ;;
           fetch (ReqLogout api token) ;;
           Ret tt)
          (fun _ =>
             call (ConsoleCall Warn
                     "Logout API call failed, but continuing with local cleanup"))
      else Ret tt) ;;
     call RemoveToken ;;
     call RemoveUser ;;
     call (SetUserState None) ;;
     call (SetTokenInfo None) ;;
     call (RouterPush "/login") ;;
     Ret true)
    (fun _ =>
       call (ConsoleCall ConsoleError "Logout failed:") ;;
       Ret false).

(** [const handleSessionTimeout = async () => { await logout() }] *)
Definition handleSessionTimeout : Prog unit :=
  logout ;; Ret tt.

(** [const getSessionTimeout = () => ...]: minutes. *)
Definition getSessionTimeout : Prog Z :=
  remember <- call GetRememberMe ;;
  if remember : bool then Ret (14 * 24 * 60) else Ret (2 * 60).

(** The argument of [useSessionTimeout]; [onTimeout] is always
    [handleSessionTimeout]. *)
Record SessionTimeoutArgs := mkArgs {
  timeoutInMinutes : Z;
  warningInSeconds : Z;
  isAuthenticated : bool
}.

(** The call [useSessionTimeout({...})] in the body of the component, for
    the value [u] of the [user] state in this render. *)
Definition useSessionTimeout_args (u : option User) : Prog SessionTimeoutArgs :=
  t <- getSessionTimeout ;;
  Ret (mkArgs t 30 (truthy_user u)).

(** [data.details?.[0] || null] *)
Definition first_detail (data : GetUserBody) : option User :=
  match details data with
  | Some (u :: _) => Some u
  | _ => None
  end.

(** [const refreshUser = async () => ...] *)
Definition refreshUser : Prog unit :=
  try_catch
    (no_window <- call TypeofWindowUndefined ;;
     if no_window : bool then Ret tt else
     token <- call GetToken ;;
     if negb (truthy_opt_string token) then call (SetUserState None) else
     storedUser <- call GetUserFromStorage ;;
     if truthy_user storedUser then call (SetUserState storedUser) else
     API_URL <- call ProcessEnvApiUrl ;;
     storedUserId <- call (LocalStorageGetItem "user_id") ;;
     userId <- match storedUserId with
               | Some s => if truthy_string s then call (JSONParse s) else Ret JNull
               | None => Ret JNull
               end ;;
     if negb (truthy_jval userId) || negb (truthy_opt_string API_URL)
     then call (SetUserState None) else
     response <- fetch (ReqGetUser API_URL userId token) ;;
     if status response =? 401 then logout ;; Ret tt else
     if negb (ok response) then Throw (Error "Failed to fetch user data") else
     data <- settle (json response) ;;
     call (SetUserState (first_detail data)))
    (fun _ =>
       call (ConsoleCall ConsoleError "Failed to refresh user data:") ;;
       call (SetUserState None)).

(** Modelled from the spec: [loginUser] of [@/lib/auth] is not in the
    sources.  It "delegates credential verification to the Identity Client;
    on success, persists token + remember-me flag + user snapshot" and "fails
    with an authentication error on bad credentials". *)
Definition loginUser (e p : string) (remember : bool) : Prog LoginData :=
  LoginRequest (mkCredentials e p remember)
    (fun r =>
       match r with
       | inl err => Throw err
       | inr d => call (PersistLogin d remember) ;; Ret d
       end).

(** [data.user?.user_role === "admin"] *)
Definition is_admin (u : option User) : bool :=
  match u with
  | Some u' => match user_role u' with
               | Some r => String.eqb r "admin"
               | None => false
               end
  | None => false
  end.

(** The body of the callback [login] gives to [setTimeout]. *)
Definition timer_body (cb : TimerCallback) : Prog unit :=
  match cb with
  | RedirectByRole u =>
      if is_admin u then
        call (ConsoleCall Log "Redirecting to admin dashboard") ;;
        call (RouterPush "/admin")
      else
        call (ConsoleCall Log "Redirecting to user dashboard") ;;
        call (RouterPush "/dashboard")
  end.

(** [const login = async (email, password, rememberMe = false)]: an omitted
    argument is [None]. *)
Definition login (e p : string) (rememberMe : option bool) : Prog unit :=
  let rememberMe := match rememberMe with Some b => b | None => false end in
  try_catch
    (call (ConsoleCall Log "Starting login process...") ;;
     data <- loginUser e p rememberMe ;;
     call (ConsoleCall Log "Login successful, setting user state:") ;;
     call (SetUserState (data_user data)) ;;
     info <- call GetTokenExpirationInfo ;;
     call (SetTokenInfo info) ;;
     call (SetTimeout (RedirectByRole (data_user data)) 100))
    (fun error =>
       call (ConsoleCall ConsoleError "Login error:") ;;
       Throw error).

(** [const checkAuth = async () => ...], closed over the [mounted] of the
    render that created the effect. *)
Definition checkAuth (mounted : bool) : Prog unit :=
  no_window <- call TypeofWindowUndefined ;;
  if (no_window : bool) || negb mounted then Ret tt else
  call (SetLoading true) ;;
  try_finally
    (try_catch
       (authenticated <- call IsAuthenticated ;;
        if negb authenticated then
          call (SetUserState None) ;;
          call (SetLoading false)
        else awaited refreshUser)
       (fun _ =>
          call (ConsoleCall ConsoleError "Auth check error:") ;;
          call (SetUserState None)))
    (call (SetLoading false)).

(** [useEffect(() => { setMounted(true) }, [])] *)
Definition mountEffect : Prog unit :=
  call (SetMounted true).

(** [useEffect(() => { ...; if (mounted) checkAuth() }, [mounted])] *)
Definition authEffect (mounted : bool) : Prog unit :=
  if mounted then checkAuth mounted else Ret tt.

(** [useEffect(() => { ... }, [user])] *)
Definition tokenInfoEffect (u : option User) : Prog unit :=
  if truthy_user u then
    info <- call GetTokenExpirationInfo ;;
    call (SetTokenInfo info)
  else call (SetTokenInfo None).

End AuthProvider.

(** ** Running programs *)

(** What a network answers. *)
Record Network := mkNetwork {
  fetch_reply : Request -> result HttpResponse;
  login_reply : Credentials -> result LoginData
}.

Definition sent (req : Request) (w : World) : World :=
  set_requests (requests w ++ [req]) w.

Definition login_sent (c : Credentials) (w : World) : World :=
  set_logins (logins w ++ [c]) w.

(** Run a program to its end, every awaited request answered by [net]. *)
Fixpoint run (env : Env) (net : Network) {R} (p : Prog R) (w : World)
  : result R * World :=
  match p with
  | Ret r => (inr r, w)
  | Throw e => (inl e, w)
  | Do c k => let xw := interp env c w in run env net (k (fst xw)) (snd xw)
  | Fetch req k => run env net (k (fetch_reply net req)) (sent req w)
  | LoginRequest c k => run env net (k (login_reply net c)) (login_sent c w)
  | Later k => run env net k w
  end.

(** How one event-loop turn of a program ends: the program is over, or it
    waits for the network. *)
Inductive Turn (R : Type) : Type :=
| Finished (r : result R) (w : World)
| AwaitFetch (req : Request) (k : result HttpResponse -> Prog R) (w : World)
| AwaitLogin (c : Credentials) (k : result LoginData -> Prog R) (w : World).

Arguments Finished {R} r w.
Arguments AwaitFetch {R} req k w.
Arguments AwaitLogin {R} c k w.

(** Run a program up to its first awaited request: one event-loop turn,
    the jobs it queues for itself included. *)
Fixpoint exec (env : Env) {R} (p : Prog R) (w : World) : Turn R :=
  match p with
  | Ret r => Finished (inr r) w
  | Throw e => Finished (inl e) w
  | Do c k => let xw := interp env c w in exec env (k (fst xw)) (snd xw)
  | Fetch req k => AwaitFetch req k (sent req w)
  | LoginRequest c k => AwaitLogin c k (login_sent c w)
  | Later k => exec env k w
  end.

(** How one job of a program ends: the program is over, it waits for the
    network, or it has queued its continuation as a later job. *)
Inductive Job (R : Type) : Type :=
| JobDone (r : result R) (w : World)
| JobFetch (req : Request) (k : result HttpResponse -> Prog R) (w : World)
| JobLogin (c : Credentials) (k : result LoginData -> Prog R) (w : World)
| JobLater (k : Prog R) (w : World).

Arguments JobDone {R} r w.
Arguments JobFetch {R} req k w.
Arguments JobLogin {R} c k w.
Arguments JobLater {R} k w.

(** Run one job: up to the first [await] of any kind. *)
Fixpoint job (env : Env) {R} (p : Prog R) (w : World) : Job R :=
  match p with
  | Ret r => JobDone (inr r) w
  | Throw e => JobDone (inl e) w
  | Do c k => let xw := interp env c w in job env (k (fst xw)) (snd xw)
  | Fetch req k => JobFetch req k (sent req w)
  | LoginRequest c k => JobLogin c k (login_sent c w)
  | Later k => JobLater k w
  end.

(** ** What the countdown hook is given *)

(** The argument of [useSessionTimeout] in a render of world [w]; [None]
    when computing it throws. *)
Definition sessionTimeoutArgs (env : Env) (w : World)
  : option AuthProvider.SessionTimeoutArgs :=
  match exec env (AuthProvider.useSessionTimeout_args (user w)) w with
  | Finished (inr a) _ => Some a
  | _ => None
  end.

(** Modelled from the spec: the hook [useSessionTimeout] is not in the
    sources.  "Once authenticated, the Countdown Timer is armed": the
    countdown is armed in the renders that pass [isAuthenticated: true]. *)
Definition countdown_armed (env : Env) (w : World) : bool :=
  match sessionTimeoutArgs env w with
  | Some a => AuthProvider.isAuthenticated a
  | None => false
  end.

Arguments truthy_string s : simpl nomatch.
Arguments truthy_jval v : simpl nomatch.
Arguments AuthProvider.first_detail data : simpl nomatch.
Arguments settle {X} r : simpl nomatch.

(** ** The component as an event-driven system

    Between two awaits JavaScript runs to completion, and the state
    updates of one job are batched.  React commits a render after a turn,
    and it may commit one between two jobs of a turn (it flushes some
    updates in a job of its own).  So the system moves by whole jobs, and
    the worlds between jobs are what a render, and through it the countdown
    hook, may see.  A queued job runs before anything else happens in the
    browser; the system does not impose this order, so it has every
    execution of the component and some more. *)

(** A suspended asynchronous call: the request it awaits and what it does
    with the answer, or the continuation it has queued as a later job. *)
Inductive Task :=
| FetchTask (req : Request) (k : result HttpResponse -> Prog unit)
| LoginTask (c : Credentials) (k : result LoginData -> Prog unit)
| Continuation (k : Prog unit).

(** The mounted component between two jobs.
    [auth_effect_deps] is the value of [mounted] the [[mounted]] effect last
    ran with ([None] before the first commit). *)
Record Sys := mkSys {
  world : World;
  tasks : list Task;
  auth_effect_deps : option bool
}.

Inductive Event :=
| EvFirstCommit                       (* the effects of the first render *)
| EvAuthEffect                        (* the [mounted] effect runs again *)
| EvLogin (e p : string) (rememberMe : option bool)   (* a consumer calls login *)
| EvLogout                            (* a consumer calls logout *)
| EvRefreshUser                       (* a consumer calls refreshUser *)
| EvSessionTimeout                    (* the hook calls onTimeout *)
| EvFetchSettles (i : nat) (r : result HttpResponse)
| EvLoginSettles (i : nat) (r : result LoginData)
| EvContinues (i : nat)               (* a queued continuation runs *)
| EvTimerFires (i : nat).

(** A call whose promise nobody awaits. *)
Definition detach {R} (p : Prog R) : Prog unit :=
  bind p (fun _ => Ret tt).

(** Run one job of [p]; if it does not finish, park it. *)
Definition spawn (env : Env) (p : Prog unit) (s : Sys) : Sys :=
  match job env p (world s) with
  | JobDone _ w' => mkSys w' (tasks s) (auth_effect_deps s)
  | JobFetch req k w' => mkSys w' (tasks s ++ [FetchTask req k]) (auth_effect_deps s)
  | JobLogin c k w' => mkSys w' (tasks s ++ [LoginTask c k]) (auth_effect_deps s)
  | JobLater k w' => mkSys w' (tasks s ++ [Continuation k]) (auth_effect_deps s)
  end.

Fixpoint remove_nth {A} (i : nat) (l : list A) : list A :=
  match l, i with
  | [], _ => []
  | _ :: l', O => l'
  | a :: l', S i' => a :: remove_nth i' l'
  end.

(** One job.  [None]: the event cannot happen in this state.
    The context functions are only reachable once the provider renders its
    children, that is once [mounted]. *)
Definition dispatch (env : Env) (ev : Event) (s : Sys) : option Sys :=
  let w := world s in
  match ev with
  | EvFirstCommit =>
      match auth_effect_deps s with
      | None =>
          let s1 := spawn env (AuthProvider.authEffect (mounted w))
                      (spawn env AuthProvider.mountEffect s) in
          Some (mkSys (world s1) (tasks s1) (Some (mounted w)))
      | Some _ => None
      end
  | EvAuthEffect =>
      match auth_effect_deps s with
      | Some d =>
          if Bool.eqb d (mounted w) then None
          else
            let s1 := spawn env (AuthProvider.authEffect (mounted w)) s in
            Some (mkSys (world s1) (tasks s1) (Some (mounted w)))
      | None => None
      end
  | EvLogin e p rememberMe =>
      if mounted w then Some (spawn env (detach (AuthProvider.login e p rememberMe)) s)
      else None
  | EvLogout =>
      if mounted w then Some (spawn env (detach AuthProvider.logout) s) else None
  | EvRefreshUser =>
      if mounted w then Some (spawn env AuthProvider.refreshUser s) else None
  | EvSessionTimeout =>
      if countdown_armed env w then Some (spawn env AuthProvider.handleSessionTimeout s)
      else None
  | EvFetchSettles i r =>
      match nth_error (tasks s) i with
      | Some (FetchTask _ k) =>
          Some (spawn env (k r) (mkSys w (remove_nth i (tasks s)) (auth_effect_deps s)))
      | _ => None
      end
  | EvLoginSettles i r =>
      match nth_error (tasks s) i with
      | Some (LoginTask _ k) =>
          Some (spawn env (k r) (mkSys w (remove_nth i (tasks s)) (auth_effect_deps s)))
      | _ => None
      end
  | EvContinues i =>
      match nth_error (tasks s) i with
      | Some (Continuation k) =>
          Some (spawn env k (mkSys w (remove_nth i (tasks s)) (auth_effect_deps s)))
      | _ => None
      end
  | EvTimerFires i =>
      match nth_error (timers w) i with
      | Some (cb, _) =>
          Some (spawn env (AuthProvider.timer_body cb)
                  (mkSys (set_timers (remove_nth i (timers w)) w)
                         (tasks s) (auth_effect_deps s)))
      | None => None
      end
  end.

Fixpoint run_events (env : Env) (evs : list Event) (s : Sys) : option Sys :=
  match evs with
  | [] => Some s
  | ev :: evs' =>
      match dispatch env ev s with
      | Some s' => run_events env evs' s'
      | None => None
      end
  end.

(** A page load: the persisted state is kept, the React state starts from
    its [useState] initial values. *)
Definition page_load (w : World) : World :=
  mkWorld (token w) (rememberMe w) (cached_user w) (expiration w) (localStorage w)
          None true false None [] [] [] [] [].

Definition boot (w : World) : Sys := mkSys (page_load w) [] None.

(** The events of the mount-time reconciliation on its own: the effects,
    the answers of the network and the queued continuations; no consumer
    call, no timer. *)
Definition mount_event (ev : Event) : bool :=
  match ev with
  | EvFirstCommit | EvAuthEffect | EvFetchSettles _ _ | EvLoginSettles _ _
  | EvContinues _ => true
  | _ => false
  end.

(** ** A program logic *)

(** What a proof about a program may assume of the network, and what it must
    establish of every world in which the program waits for the network
    ([at_await]) or for a job it has queued ([at_later]). *)
Record Frame := mkFrame {
  replies : Request -> result HttpResponse -> Prop;
  login_replies : Credentials -> result LoginData -> Prop;
  at_await : World -> Prop;
  at_later : World -> Prop
}.

(** [wp env F p w Q]: started in world [w], program [p] ends with a result
    and in a world that satisfy [Q], whatever the network answers within
    [F]; every world in which [p] waits for the network satisfies
    [at_await F], and every world in which it waits for its next job
    satisfies [at_later F].  Nothing else touches the world while [p]
    waits. *)
Fixpoint wp (env : Env) (F : Frame) {R} (p : Prog R) (w : World)
    (Q : result R -> World -> Prop) : Prop :=
  match p with
  | Ret r => Q (inr r) w
  | Throw e => Q (inl e) w
  | Do c k => wp env F (k (fst (interp env c w))) (snd (interp env c w)) Q
  | Fetch req k =>
      at_await F (sent req w) /\
      forall r, replies F req r -> wp env F (k r) (sent req w) Q
  | LoginRequest c k =>
      at_await F (login_sent c w) /\
      forall r, login_replies F c r -> wp env F (k r) (login_sent c w) Q
  | Later k => at_later F w /\ wp env F k w Q
  end.

(** The frame of a run against a network oracle. *)
Definition oracle (net : Network) : Frame :=
  mkFrame (fun req r => r = fetch_reply net req)
          (fun c r => r = login_reply net c)
          (fun _ => True) (fun _ => True).

(** Any answer may come; [A] holds whenever the program waits. *)
Definition awaiting (A : World -> Prop) : Frame :=
  mkFrame (fun _ _ => True) (fun _ _ => True) A A.

(** The frame of a program that must end in its first turn: it never waits
    for the network. *)
Definition no_await : Frame :=
  mkFrame (fun _ _ => True) (fun _ _ => True) (fun _ => False) (fun _ => True).

(** The frame of a program that must end in its first job. *)
Definition no_pause : Frame := awaiting (fun _ => False).

(** A parked task is safe to resume in world [w]. *)
Definition task_wp (env : Env) (F : Frame) (Q : World -> Prop) (w : World)
    (t : Task) : Prop :=
  match t with
  | FetchTask _ k => forall r, wp env F (k r) w (fun _ => Q)
  | LoginTask _ k => forall r, wp env F (k r) w (fun _ => Q)
  | Continuation k => wp env F k w (fun _ => Q)
  end.

(** The invariant of the mount-time reconciliation running on its own:
    [Pre] holds until the [mounted] effect has run [checkAuth]; from then on
    either the reconciliation is over and [Q] holds, or it waits, for the
    network or for its next job, in a world satisfying [A]. *)
Definition mount_inv (env : Env) (Pre A Q : World -> Prop) (s : Sys) : Prop :=
  match auth_effect_deps s with
  | None => Pre (world s) /\ mounted (world s) = false /\ tasks s = []
  | Some false => Pre (world s) /\ mounted (world s) = true /\ tasks s = []
  | Some true =>
      match tasks s with
      | [] => Q (world s)
      | [t] => A (world s) /\ task_wp env (awaiting A) Q (world s) t
      | _ => False
      end
  end.

(** ** The discipline of [loading] and [mounted]

    Only [checkAuth] sets [loading], and only the first effect sets
    [mounted].  What follows says so of programs, of parked tasks and of
    the system, whatever runs in between. *)

(** The calls that leave [mounted] alone and do not set [loading] to
    [true]. *)
Definition lowers_only {X} (c : Call X) : bool :=
  match c with
  | SetMounted _ => false
  | SetLoading b => negb b
  | _ => true
  end.

(** [setLoading(false)] *)
Definition clears_loading {X} (c : Call X) : bool :=
  match c with
  | SetLoading b => negb b
  | _ => false
  end.

(** [tame closing cleared p]: [p] makes only calls that [lowers_only]
    allows; and, when [closing], on every path to the end of [p] a
    [setLoading(false)] has been made, by [p] or, when [cleared], before
    it. *)
Fixpoint tame (closing cleared : bool) {R} (p : Prog R) : Prop :=
  match p with
  | Ret _ | Throw _ => closing = true -> cleared = true
  | Do c k =>
      lowers_only c = true /\
      forall x, tame closing (cleared || clears_loading c) (k x)
  | Fetch _ k => forall r, tame closing cleared (k r)
  | LoginRequest _ k => forall r, tame closing cleared (k r)
  | Later k => tame closing cleared k
  end.

Definition task_tame (closing cleared : bool) (t : Task) : Prop :=
  match t with
  | FetchTask _ k => forall r, tame closing cleared (k r)
  | LoginTask _ k => forall r, tame closing cleared (k r)
  | Continuation k => tame closing cleared k
  end.

(** A parked task that sets [loading] to [false] before it ends, if that
    is not done already. *)
Definition closing_task (w : World) (t : Task) : Prop :=
  exists cleared,
    task_tame true cleared t /\ (cleared = true -> loading w = false).

(** The parked tasks of a system whose [mounted] effect last ran with
    [d]: tasks of the consumers, and, once [checkAuth] has been started,
    what is left of it. *)
Definition task_ok (d : bool) (w : World) (t : Task) : Prop :=
  task_tame false false t \/ (d = true /\ closing_task w t).

(** What a job may do to [mounted] and [loading]. *)
Definition stable (w w' : World) : Prop :=
  mounted w' = mounted w /\ (loading w = false -> loading w' = false).

(** The invariant of the system under every event: before the first
    commit nothing has happened; afterwards the component is mounted, and
    once [checkAuth] has been started either [loading] is [false] or what
    is left of [checkAuth] is parked. *)
Definition loading_inv (w0 : World) (s : Sys) : Prop :=
  match auth_effect_deps s with
  | None => s = boot w0
  | Some d =>
      mounted (world s) = true /\
      Forall (task_ok d (world s)) (tasks s) /\
      (d = true ->
       loading (world s) = false \/ Exists (closing_task (world s)) (tasks s))
  end.

(** ** Properties of environments, answers and worlds *)

Definition throws (env : Env) (c : Callee) : bool :=
  match faults env c with Some _ => true | None => false end.

(** The local cleanup path of [logout]: the calls of its outer [try] other
    than the network notification and the React setters. *)
Definition local_cleanup_throws (env : Env) : bool :=
  throws env CGetToken || throws env CRemoveToken ||
  throws env CRemoveUser || throws env CRouterPush.

(** What [logout] leaves behind when its local cleanup does not throw. *)
Definition logged_out (w w' : World) : Prop :=
  token w' = None /\ cached_user w' = None /\ user w' = None /\
  tokenInfo w' = None /\ pushes w' = (pushes w ++ ["/login"])%list /\
  loading w' = loading w /\ mounted w' = mounted w /\
  rememberMe w' = rememberMe w.

(** The identity fetch resolved no user and was not a 401: the request
    rejected, the response was not [ok], its body could not be read, or the
    body has no first [details] entry. *)
Definition identity_unresolved (r : result HttpResponse) : bool :=
  match r with
  | inl _ => true
  | inr resp =>
      negb (status resp =? 401) &&
      (negb (ok resp) ||
       match json resp with
       | inl _ => true
       | inr d => negb (truthy_user (AuthProvider.first_detail d))
       end)
  end.

(** The conditions under which [refreshUser] goes to the network for the
    user [uid]. *)
Record reaches_identity_fetch (env : Env) (w : World) (uid : JVal)
  : Prop := mkReaches {
  rf_window : window_defined env = true;
  rf_get_token : faults env CGetToken = None;
  rf_token : truthy_opt_string (token w) = true;
  rf_get_user : faults env CGetUser = None;
  rf_no_cached_user : cached_user w = None;
  rf_api : truthy_opt_string (NEXT_PUBLIC_API_URL env) = true;
  rf_storage : faults env CLocalStorage = None;
  rf_id_item : exists s, localStorage w "user_id" = Some s /\
                         truthy_string s = true /\ JSON_parse env s = inr uid;
  rf_id_truthy : truthy_jval uid = true
}.

(** ** Sample inputs *)

Module Sample.

Definition no_faults : Callee -> option exn := fun _ => None.

Definition parse_seven (s : string) : result JVal :=
  if String.eqb s "7" then inr (JNum 7) else inl (Error "SyntaxError").

(** A browser in which no collaborator throws. *)
Definition browser : Env :=
  mkEnv (Some "https://api.test") true parse_seven no_faults.

Definition alice : User := mkUser 7 "alice@test" None (Some "admin").

Definition storage (k : string) : option string :=
  if String.eqb k "user_id" then Some "7" else None.

(** The world of a mounted component before the reconciliation, over a
    Token Store with the given content. *)
Definition mounted_page (tok : option string) (remember : bool) (cu : option User)
  : World :=
  mkWorld tok remember cu None storage None true true None [] [] [] [] [].

Definition offline : Network :=
  mkNetwork (fun _ => inl (Error "Failed to fetch"))
            (fun _ => inl (Error "Failed to fetch")).

(** Every [fetch] answers with the given status and an unreadable body;
    every login is refused. *)
Definition answering (st : Z) : Network :=
  mkNetwork (fun _ => inr (mkResponse st (inl (Error "Unexpected end of JSON input"))))
            (fun _ => inl (Error "Invalid credentials")).

(** Every login succeeds as [alice]. *)
Definition welcoming : Network :=
  mkNetwork (fun _ => inl (Error "Failed to fetch"))
            (fun _ => inr (mkLoginData (Some alice) "tok2")).

End Sample.

(** ** More properties of worlds and inputs *)

(** [const userId = storedUserId ? JSON.parse(storedUserId) : null] *)
Definition stored_user_id (env : Env) (w : World) : result JVal :=
  match localStorage w "user_id" with
  | Some s => if truthy_string s then JSON_parse env s else inr JNull
  | None => inr JNull
  end.

(** [!userId || !API_URL], or [JSON.parse] throws: [refreshUser] has no
    identity to ask the network for. *)
Definition identity_key_missing (env : Env) (w : World) : bool :=
  match stored_user_id env w with
  | inl _ => true
  | inr v => negb (truthy_jval v) || negb (truthy_opt_string (NEXT_PUBLIC_API_URL env))
  end.

(** The default of [login]'s parameter [rememberMe = false]. *)
Definition default_false (o : option bool) : bool :=
  match o with Some b => b | None => false end.

(** More sample inputs. *)
Module Scenario.

(** A browser whose build has no [NEXT_PUBLIC_API_URL]. *)
Definition no_api : Env :=
  mkEnv None true Sample.parse_seven Sample.no_faults.

(** [getTokenExpirationInfo] throws. *)
Definition expiry_unreadable : Env :=
  mkEnv (Some "https://api.test") true Sample.parse_seven
        (fun c => match c with
                  | CGetTokenExpirationInfo => Some (Error "Invalid token")
                  | _ => None
                  end).

(** Every [fetch] answers 200 with [alice] as first [details] entry. *)
Definition identifying : Network :=
  mkNetwork (fun _ => inr (mkResponse 200 (inr (mkBody (Some [Sample.alice])))))
            (fun _ => inl (Error "Failed to fetch")).

(** [removeToken] throws. *)
Definition store_jammed : Env :=
  mkEnv (Some "https://api.test") true Sample.parse_seven
        (fun c => match c with
                  | CRemoveToken => Some (Error "QuotaExceededError")
                  | _ => None
                  end).

End Scenario.

(** ** The rates screen

    [RatesManagement] is a consumer of the session: it reads the token
    with [getToken] and shows the carrier rates of the selected carrier,
    filtered by a search term and cut into pages. *)

Module RatesManagement.

(** What a [throw] or a rejected promise carries, as the [catch] of
    [fetchCarrierData] reads it: an [Error] with its [message], or any other
    value with what [String(err)] makes of it. *)
Inductive Thrown :=
| ThrownError (message : string)
| ThrownValue (as_string : string).

(** [interface CarrierRate].  The six fields the search reads behind [?.]
    may be missing at run time. *)
Record CarrierRate := mkCarrierRate {
  carreir_rate_id : Z;
  transport_id : Z;
  carrier_id : Z;
  rate : Z;
  delivery_address : Z;
  pickup_address : Z;
  minimum : option QArith_base.Q;
  basic : option QArith_base.Q;
  kilo : option QArith_base.Q;
  carrier_name : option string;
  transport_name : string;
  pickupaddress : option string;
  deliveryaddress : option string
}.

(** What [res.json()] can resolve to, as far as [fetchCarrierData] looks:
    [null], an array, an object whose [Details] is an array ([Some]) or is
    not ([None]), or a primitive with its [typeof]. *)
Inductive JData :=
| JNullData
| JArrayOf (items : list CarrierRate)
| JObjectWith (Details : option (list CarrierRate))
| JPrimitive (type_of : string).

(** [typeof data] *)
Definition typeof (d : JData) : string :=
  match d with
  | JPrimitive t => t
  | _ => "object"
  end.

(** A [fetch] response. *)
Record Response := mkResponse {
  status : Z;
  statusText : string;
  text : Thrown + string;
  json : Thrown + JData
}.

(** [res.ok] as the Fetch standard defines it. *)
Definition ok (r : Response) : bool :=
  (200 <=? status r) && (status r <=? 299).

(** The built-ins of the JavaScript engine the screen relies on. *)
Record Platform := mkPlatform {
  toLowerCase : string -> string;
  trim : string -> string;
  Number_toString : QArith_base.Q -> string;
  JSON_stringify : JData -> string;
  substring : string -> Z -> Z -> string;
  (* the [TypeError] of reading a property of [null] *)
  null_property_error : Thrown
}.

(** What the outside answers: [getToken()] and the network. *)
Record Server := mkServer {
  getToken : Thrown + option string;
  fetch_reply : string -> string -> Thrown + Response
}.

(** The React state of the component, and its effects on the outside. *)
Record State := mkState {
  selectedCarrier : Z;
  loading : bool;
  error : option string;
  carrierRates : list CarrierRate;
  filteredRates : list CarrierRate;
  currentPage : Z;
  searchTerm : string;
  debugInfo : string;
  console : list (ConsoleLevel * string);
  requests : list (string * string)
}.

(** The [useState] initial values. *)
Definition initial : State :=
  mkState 1 true None [] [] 1 EmptyString EmptyString [] [].

Definition setSelectedCarrier v st :=
  mkState v (loading st) (error st) (carrierRates st) (filteredRates st)
          (currentPage st) (searchTerm st) (debugInfo st) (console st) (requests st).
Definition setLoading v st :=
  mkState (selectedCarrier st) v (error st) (carrierRates st) (filteredRates st)
          (currentPage st) (searchTerm st) (debugInfo st) (console st) (requests st).
Definition setError v st :=
  mkState (selectedCarrier st) (loading st) v (carrierRates st) (filteredRates st)
          (currentPage st) (searchTerm st) (debugInfo st) (console st) (requests st).
Definition setCarrierRates v st :=
  mkState (selectedCarrier st) (loading st) (error st) v (filteredRates st)
          (currentPage st) (searchTerm st) (debugInfo st) (console st) (requests st).
Definition setFilteredRates v st :=
  mkState (selectedCarrier st) (loading st) (error st) (carrierRates st) v
          (currentPage st) (searchTerm st) (debugInfo st) (console st) (requests st).
Definition setCurrentPage v st :=
  mkState (selectedCarrier st) (loading st) (error st) (carrierRates st) (filteredRates st)
          v (searchTerm st) (debugInfo st) (console st) (requests st).
Definition setSearchTerm v st :=
  mkState (selectedCarrier st) (loading st) (error st) (carrierRates st) (filteredRates st)
          (currentPage st) v (debugInfo st) (console st) (requests st).
Definition setDebugInfo v st :=
  mkState (selectedCarrier st) (loading st) (error st) (carrierRates st) (filteredRates st)
          (currentPage st) (searchTerm st) v (console st) (requests st).
Definition console_call (level : ConsoleLevel) (msg : string) st :=
  mkState (selectedCarrier st) (loading st) (error st) (carrierRates st) (filteredRates st)
          (currentPage st) (searchTerm st) (debugInfo st)
          (console st ++ [(level, msg)]) (requests st).
Definition sent (url bearer : string) st :=
  mkState (selectedCarrier st) (loading st) (error st) (carrierRates st) (filteredRates st)
          (currentPage st) (searchTerm st) (debugInfo st) (console st)
          (requests st ++ [(url, bearer)]).

(** *** Pagination (computed in every render) *)

Definition itemsPerPage : Z := 10.

(** [Math.ceil(a / b)] for integers [a] and [b > 0]. *)
Definition Math_ceil_div (a b : Z) : Z := - ((- a) / b).

(** [Array.prototype.slice(start, end)] with integer arguments: a negative
    index counts from the end, and both are clamped to the array. *)
Definition slice {A} (l : list A) (first last : Z) : list A :=
  let len := Z.of_nat (length l) in
  let k := if first <? 0 then Z.max (len + first) 0 else Z.min first len in
  let final := if last <? 0 then Z.max (len + last) 0 else Z.min last len in
  firstn (Z.to_nat (final - k)) (skipn (Z.to_nat k) l).

Definition totalItems (st : State) : Z := Z.of_nat (length (filteredRates st)).
Definition totalPages (st : State) : Z := Math_ceil_div (totalItems st) itemsPerPage.
Definition startIndex (st : State) : Z := (currentPage st - 1) * itemsPerPage.
Definition endIndex (st : State) : Z :=
  Z.min (startIndex st + itemsPerPage) (totalItems st).
Definition currentItems (st : State) : list CarrierRate :=
  slice (filteredRates st) (startIndex st) (endIndex st).

(** *** What the render shows *)

(** [{loading && ...}] *)
Definition shows_spinner (st : State) : bool := loading st.
(** [{error && !loading && ...}] *)
Definition shows_error (st : State) : bool :=
  truthy_opt_string (error st) && negb (loading st).
(** [{!loading && !error && ...}] *)
Definition shows_table (st : State) : bool :=
  negb (loading st) && negb (truthy_opt_string (error st)).
(** [{totalPages > 1 && ...}] *)
Definition shows_pagination (st : State) : bool :=
  shows_table st && (1 <? totalPages st).

(** *** The page buttons *)

Definition maxVisiblePages : Z := 5.

(** [let startPage = Math.max(1, currentPage - Math.floor(maxVisiblePages / 2))] *)
Definition startPage0 (st : State) : Z :=
  Z.max 1 (currentPage st - maxVisiblePages / 2).

Definition endPage (st : State) : Z :=
  Z.min (totalPages st) (startPage0 st + maxVisiblePages - 1).

(** [startPage] after the [if]. *)
Definition startPage (st : State) : Z :=
  if endPage st - startPage0 st + 1 <? maxVisiblePages
  then Z.max 1 (endPage st - maxVisiblePages + 1)
  else startPage0 st.

(** [[...Array(endPage - startPage + 1)].map((_, i) => startPage + i)];
    [None] when the length is negative and [Array] throws a [RangeError]. *)
Definition pageNumbers (st : State) : option (list Z) :=
  let n := endPage st - startPage st + 1 in
  if n <? 0 then None
  else Some (map (fun i => startPage st + Z.of_nat i) (seq 0 (Z.to_nat n))).

(** The clicks of the pagination bar.  A [disabled] button does not fire,
    and the bar is only there when [totalPages > 1]: [None] when the click
    cannot happen. *)
Inductive PageClick := ClickPrevious | ClickNext | ClickPage (pageNum : Z).

Definition page_click (c : PageClick) (st : State) : option State :=
  if negb (shows_pagination st) then None
  else
    match c with
    | ClickPrevious =>
        if currentPage st =? 1 then None
        else Some (setCurrentPage (Z.max (currentPage st - 1) 1) st)
    | ClickNext =>
        if currentPage st =? totalPages st then None
        else Some (setCurrentPage (Z.min (currentPage st + 1) (totalPages st)) st)
    | ClickPage pageNum =>
        match pageNumbers st with
        | Some l => if existsb (Z.eqb pageNum) l
                    then Some (setCurrentPage pageNum st) else None
        | None => None
        end
    end.

(** *** Search *)

(** [String.prototype.includes] *)
Fixpoint includes (s t : string) : bool :=
  String.prefix t s ||
  match s with
  | EmptyString => false
  | String _ s' => includes s' t
  end.

(** [x?.f()] in a condition: a missing [x] gives [undefined], which is
    falsy. *)
Definition opt_test {A} (x : option A) (f : A -> bool) : bool :=
  match x with Some a => f a | None => false end.

(** The predicate [handleSearch] filters with. *)
Definition matches (pf : Platform) (term : string) (r : CarrierRate) : bool :=
  opt_test (pickupaddress r)
    (fun s => includes (toLowerCase pf s) (toLowerCase pf term)) ||
  opt_test (deliveryaddress r)
    (fun s => includes (toLowerCase pf s) (toLowerCase pf term)) ||
  opt_test (carrier_name r)
    (fun s => includes (toLowerCase pf s) (toLowerCase pf term)) ||
  opt_test (minimum r) (fun n => includes (Number_toString pf n) term) ||
  opt_test (basic r) (fun n => includes (Number_toString pf n) term) ||
  opt_test (kilo r) (fun n => includes (Number_toString pf n) term).

(** [const handleSearch = (term: string) => ...] *)
Definition handleSearch (pf : Platform) (term : string) (st : State) : State :=
  let st1 := setCurrentPage 1 (setSearchTerm term st) in
  if negb (truthy_string (trim pf term)) then
    setFilteredRates (carrierRates st) st1
  else
    setFilteredRates (filter (matches pf term) (carrierRates st)) st1.

(** [const handleCarrierChange = (carrierId: number) => ...] *)
Definition handleCarrierChange (carrierId : Z) (st : State) : State :=
  setSearchTerm EmptyString (setSelectedCarrier carrierId st).

(** *** Loading the rates *)

(** A step of an asynchronous function run to its end: it throws or it
    returns, and leaves a state. *)
Definition Step (A : Type) : Type := State -> (Thrown + A) * State.

Definition pure {A} (a : A) : Step A := fun st => (inr a, st).
Definition raise {A} (e : Thrown) : Step A := fun st => (inl e, st).
Definition settled {A} (r : Thrown + A) : Step A := fun st => (r, st).
Definition update (f : State -> State) : Step unit := fun st => (inr tt, f st).
Definition read {A} (f : State -> A) : Step A := fun st => (inr (f st), st).

Definition and_then {A B} (m : Step A) (f : A -> Step B) : Step B :=
  fun st =>
    match m st with
    | (inr a, st') => f a st'
    | (inl e, st') => (inl e, st')
    end.

(** [try { m } catch (err) { h err }] *)
Definition catch {A} (m : Step A) (h : Thrown -> Step A) : Step A :=
  fun st =>
    match m st with
    | (inr a, st') => (inr a, st')
    | (inl e, st') => h e st'
    end.

(** [try { m } finally { f }]: [f] runs in both cases; if it throws, its
    exception replaces the outcome of [m]. *)
Definition finally {A} (m : Step A) (f : Step unit) : Step A :=
  fun st =>
    match m st with
    | (r, st') =>
        match f st' with
        | (inr _, st'') => (r, st'')
        | (inl e, st'') => (inl e, st'')
        end
    end.

Declare Scope rates_scope.
Delimit Scope rates_scope with rates.
Notation "x <~ m ;; k" := (and_then m (fun x => k))
  (at level 61, m at next level, right associativity) : rates_scope.
Notation "m ;;; k" := (and_then m (fun _ => k))
  (at level 61, right associativity) : rates_scope.

Definition newline : string := String (Ascii.ascii_of_nat 10) EmptyString.

(** [setDebugInfo((prev) => prev + more)] *)
Definition appendDebugInfo (more : string) : Step unit :=
  update (fun st => setDebugInfo (debugInfo st ++ more) st).

(** [err instanceof Error ? err.message : String(err)] *)
Definition errorMessage (err : Thrown) : string :=
  match err with
  | ThrownError m => m
  | ThrownValue s => s
  end.

(** [a || b] on strings *)
Definition or_else (a b : string) : string :=
  if truthy_string a then a else b.

Definition num (pf : Platform) (n : Z) : string :=
  Number_toString pf (QArith_base.inject_Z n).

(** [const fetchCarrierData = async (carrierId: number) => ...], with the
    awaited promises settled by [sv]. *)
Definition fetchCarrierData (pf : Platform) (sv : Server) (carrierId : Z)
  : Step unit :=
  (update (setLoading true) ;;;
   update (setError None) ;;;
   update (setDebugInfo EmptyString) ;;;
   finally
     (catch
        (update (console_call Log
                   ("Fetching data for carrier " ++ num pf carrierId ++ "...")) ;;;
         token <~ settled (getToken sv) ;;
         match token with
         | Some tok =>
           if truthy_string tok then
             let apiUrl :=
               "https://www.hungryblogs.com/api/GetCarrier?carrier_id="
               ++ num pf carrierId ++ "&transport_id=1" in
             update (console_call Log ("API URL: " ++ apiUrl)) ;;;
             appendDebugInfo (newline ++ "Fetching from: " ++ apiUrl) ;;;
             update (sent apiUrl tok) ;;;
             res <~ settled (fetch_reply sv apiUrl tok) ;;
             appendDebugInfo
               (newline ++ "Response status: " ++ num pf (status res)) ;;;
             (if negb (ok res) then
                errorText <~ settled (text res) ;;
                update (console_call ConsoleError
                          ("API Error: " ++ num pf (status res))) ;;;
                appendDebugInfo (newline ++ "Error response: " ++ errorText) ;;;
                raise (ThrownError
                         ("Error " ++ num pf (status res) ++ ": "
                          ++ statusText res))
              else pure tt) ;;;
             data <~ settled (json res) ;;
             update (console_call Log "API Response:") ;;;
             appendDebugInfo
               (newline ++ "Response data: "
                ++ substring pf (JSON_stringify pf data) 0 200 ++ "...") ;;;
             ratesData <~
               match data with
               | JNullData => raise (null_property_error pf)
               | JObjectWith (Some l) => pure l
               | JArrayOf l => pure l
               | _ =>
                   update (console_call Warn "Unexpected API response format:") ;;;
                   appendDebugInfo
                     (newline ++ "Unexpected data format: " ++ typeof data) ;;;
                   pure []
               end ;;
             let loaded := num pf (Z.of_nat (length ratesData)) in
             update (console_call Log
                       ("Loaded " ++ loaded ++ " rates for carrier "
                        ++ num pf carrierId)) ;;;
             appendDebugInfo (newline ++ "Loaded " ++ loaded ++ " rates") ;;;
             update (setCarrierRates ratesData) ;;;
             update (setFilteredRates ratesData) ;;;
             update (setCurrentPage 1)
           else raise (ThrownError "Authentication token not found")
         | None => raise (ThrownError "Authentication token not found")
         end)
        (fun err =>
           update (console_call ConsoleError "Failed to fetch carrier data:") ;;;
           update (setError
                     (Some (or_else (errorMessage err)
                                    "Failed to fetch carrier data"))) ;;;
           update (setCarrierRates []) ;;;
           update (setFilteredRates []) ;;;
           appendDebugInfo (newline ++ "Error: " ++ errorMessage err)))
     (update (setLoading false)))%rates.

(** A call of an asynchronous function whose promise nobody awaits: the
    caller goes on whatever becomes of it. *)
Definition detached {A} (m : Step A) : Step unit :=
  fun st => (inr tt, snd (m st)).

(** The effect [useEffect(() => ..., [selectedCarrier])]. *)
Definition fetchEffect (pf : Platform) (sv : Server) : Step unit :=
  (token <~ settled (getToken sv) ;;
   if truthy_opt_string token then
     carrierId <~ read selectedCarrier ;;
     detached (fetchCarrierData pf sv carrierId)
   else
     update (setError
               (Some "Authentication token not found. Please log in again.")))%rates.

(** [const handleRefresh = () => ...].  The search term is cleared while
    the request is under way; [fetchCarrierData] never reads or writes it. *)
Definition handleRefresh (pf : Platform) (sv : Server) : Step unit :=
  (carrierId <~ read selectedCarrier ;;
   detached (fetchCarrierData pf sv carrierId) ;;;
   update (setSearchTerm EmptyString))%rates.

(** [Array.from({ length: 20 }, (_, i) => ...)] *)
Definition mockRate (pf : Platform) (carrier : Z) (i : Z) : CarrierRate :=
  mkCarrierRate (i + 1) 1 carrier 1 (i + 100) (i + 200)
    (Some (QArith_base.inject_Z (50 + i * 5)))
    (Some (QArith_base.inject_Z (100 + i * 10)))
    (Some (QArith_base.Qplus (QArith_base.inject_Z 2)
             (QArith_base.Qmult (QArith_base.inject_Z i)
                                (QArith_base.Qmake 1 2))))
    (Some ("Carrier " ++ num pf carrier))
    "Road Transport"
    (Some ("City " ++ num pf (i + 1)))
    (Some ("City " ++ num pf (i + 10))).

(** [const useMockData = () => ...] *)
Definition useMockData (pf : Platform) (st : State) : State :=
  let mockData :=
    map (fun i => mockRate pf (selectedCarrier st) (Z.of_nat i)) (seq 0 20) in
  setError None
    (setLoading false (setFilteredRates mockData (setCarrierRates mockData st))).

(** *** The screen as a transition system *)

(** What can happen to the screen: the user's clicks and keystrokes, and
    the effect that follows a render with a new [selectedCarrier].  A
    request is taken with its answer: nothing else happens while it is
    under way.  Apart from the pagination bar, whose buttons exist and are
    enabled only in some states, every action is allowed in every state. *)
Inductive Action :=
| Search (term : string)
| CarrierChange (carrierId : Z)
| Effect (sv : Server)
| Refresh (sv : Server)
| UseMockData
| PageBar (c : PageClick).

Definition act (pf : Platform) (a : Action) (st : State) : option State :=
  match a with
  | Search term => Some (handleSearch pf term st)
  | CarrierChange carrierId => Some (handleCarrierChange carrierId st)
  | Effect sv => Some (snd (fetchEffect pf sv st))
  | Refresh sv => Some (snd (handleRefresh pf sv st))
  | UseMockData => Some (useMockData pf st)
  | PageBar c => page_click c st
  end.

Fixpoint run_actions (pf : Platform) (l : list Action) (st : State)
  : option State :=
  match l with
  | [] => Some st
  | a :: l' =>
      match act pf a st with
      | Some st' => run_actions pf l' st'
      | None => None
      end
  end.

(** *** Properties of answers and states *)

(** The rates a response body holds, for the two shapes the screen
    accepts; any other shape counts as no rates. *)
Definition listed_rates (d : JData) : list CarrierRate :=
  match d with
  | JObjectWith (Some l) => l
  | JArrayOf l => l
  | _ => []
  end.

(** The address [fetchCarrierData] asks. *)
Definition carrier_url (pf : Platform) (carrierId : Z) : string :=
  "https://www.hungryblogs.com/api/GetCarrier?carrier_id="
  ++ num pf carrierId ++ "&transport_id=1".

(** The rows of the table are loaded rates, in the order they were loaded
    in. *)
Definition filtered_from_loaded (st : State) : Prop :=
  exists keep, filteredRates st = filter keep (carrierRates st).

(** *** Sample inputs *)

(** An engine whose string functions do nothing and which prints every
    number alike. *)
Definition plain : Platform :=
  mkPlatform (fun s => s) (fun s => s) (fun _ => "0") (fun _ => "{}")
             (fun s _ _ => s)
             (ThrownError "Cannot read properties of null (reading 'Details')").

(** No token in the store, and no network. *)
Definition signed_out : Server :=
  mkServer (inr None) (fun _ _ => inl (ThrownError "Failed to fetch")).

(** A token in the store, and a network that answers everything with
    [res]. *)
Definition serving (res : Response) : Server :=
  mkServer (inr (Some "tok")) (fun _ _ => inr res).

Definition one_rate : CarrierRate :=
  mkCarrierRate 1 1 1 1 100 200 None None None (Some "Carrier 1")
                "Road Transport" (Some "Perth") (Some "Sydney").

End RatesManagement.

(** ** Rules of the program logic *)

Section Rules.
Variable env : Env.
Variable F : Frame.

Lemma wp_mono R (p : Prog R) w (Q Q' : result R -> World -> Prop) :
  (forall r w', Q r w' -> Q' r w') -> wp env F p w Q -> wp env F p w Q'.
Proof.
  intro HQ. revert w.
  induction p as [r|e|X c k IH|req k IH|c k IH|k IH]; intro w; cbn [wp]; auto.
  - intros [Ha Hk]; split; auto.
  - intros [Ha Hk]; split; auto.
  - intros [Ha Hk]; split; auto.
Qed.

Lemma wp_bind A B (p : Prog A) (f : A -> Prog B) w Q :
  wp env F p w
     (fun r w' => match r with
                  | inl e => Q (inl e) w'
                  | inr a => wp env F (f a) w' Q
                  end) ->
  wp env F (bind p f) w Q.
Proof.
  revert w.
  induction p as [r|e|X c k IH|req k IH|c k IH|k IH]; intro w;
    cbn [wp bind]; auto.
  - intros [Ha Hk]; split; auto.
  - intros [Ha Hk]; split; auto.
  - intros [Ha Hk]; split; auto.
Qed.

Lemma wp_try_catch A (p : Prog A) (h : exn -> Prog A) w Q :
  wp env F p w
     (fun r w' => match r with
                  | inl e => wp env F (h e) w' Q
                  | inr a => Q (inr a) w'
                  end) ->
  wp env F (try_catch p h) w Q.
Proof.
  revert w.
  induction p as [r|e|X c k IH|req k IH|c k IH|k IH]; intro w;
    cbn [wp try_catch]; auto.
  - intros [Ha Hk]; split; auto.
  - intros [Ha Hk]; split; auto.
  - intros [Ha Hk]; split; auto.
Qed.

Lemma wp_try_finally A (p : Prog A) (f : Prog unit) w Q :
  wp env F p w
     (fun r w' =>
        wp env F f w'
           (fun r2 w'' => match r2 with
                          | inl e => Q (inl e) w''
                          | inr _ => Q r w''
                          end)) ->
  wp env F (try_finally p f) w Q.
Proof.
  revert w.
  induction p as [r|e|X c k IH|req k IH|c k IH|k IH]; intro w;
    cbn [wp try_finally].
  - intro H. apply wp_bind. revert H. apply wp_mono. intros [e|[]] w'; auto.
  - intro H. apply wp_bind. revert H. apply wp_mono. intros [e'|[]] w'; auto.
  - auto.
  - intros [Ha Hk]; split; auto.
  - intros [Ha Hk]; split; auto.
  - intros [Ha Hk]; split; auto.
Qed.

(** [await p()]: the world [p] leaves is one in which the caller waits. *)
Lemma wp_awaited A (p : Prog A) w Q :
  wp env F p w (fun r w' => at_later F w' /\ Q r w') ->
  wp env F (awaited p) w Q.
Proof.
  revert w.
  induction p as [r|e|X c k IH|req k IH|c k IH|k IH]; intro w;
    cbn [wp awaited]; auto.
  - intros [Ha Hk]; split; auto.
  - intros [Ha Hk]; split; auto.
  - intros [Ha Hk]; split; auto.
Qed.

Lemma wp_settle X (r : result X) w Q : Q r w -> wp env F (settle r) w Q.
Proof. destruct r; auto. Qed.

Lemma wp_call X (c : Call X) w Q :
  Q (fst (interp env c w)) (snd (interp env c w)) -> wp env F (call c) w Q.
Proof. unfold call; cbn [wp]. apply wp_settle. Qed.

Lemma wp_ret X (x : X) w (Q : result X -> World -> Prop) :
  Q (inr x) w -> wp env F (Ret x) w Q.
Proof. auto. Qed.

Lemma wp_throw X e w (Q : result X -> World -> Prop) :
  Q (inl e) w -> wp env F (Throw e) w Q.
Proof. auto. Qed.

Lemma wp_fetch req w Q :
  at_await F (sent req w) ->
  (forall r, replies F req r -> Q r (sent req w)) ->
  wp env F (fetch req) w Q.
Proof.
  intros Ha Hr. unfold fetch; cbn [wp]. split; auto.
  intros r Hrep. apply wp_settle; auto.
Qed.

Lemma wp_login_request R c (k : result LoginData -> Prog R) w Q :
  at_await F (login_sent c w) ->
  (forall r, login_replies F c r -> wp env F (k r) (login_sent c w) Q) ->
  wp env F (LoginRequest c k) w Q.
Proof. intros Ha Hr. cbn [wp]. auto. Qed.

(** One turn of a verified program. *)
Lemma wp_exec R (p : Prog R) w Q :
  wp env F p w Q ->
  match exec env p w with
  | Finished r w' => Q r w'
  | AwaitFetch req k w' =>
      at_await F w' /\ forall r, replies F req r -> wp env F (k r) w' Q
  | AwaitLogin c k w' =>
      at_await F w' /\ forall r, login_replies F c r -> wp env F (k r) w' Q
  end.
Proof.
  revert w.
  induction p as [r|e|X c k IH|req k IH|c k IH|k IH]; intro w; cbn [wp exec];
    try (intro H; exact H).
  - apply IH.
  - intros [_ H]. apply IH, H.
Qed.

(** One job of a verified program. *)
Lemma wp_job R (p : Prog R) w Q :
  wp env F p w Q ->
  match job env p w with
  | JobDone r w' => Q r w'
  | JobFetch req k w' =>
      at_await F w' /\ forall r, replies F req r -> wp env F (k r) w' Q
  | JobLogin c k w' =>
      at_await F w' /\ forall r, login_replies F c r -> wp env F (k r) w' Q
  | JobLater k w' => at_later F w' /\ wp env F k w' Q
  end.
Proof.
  revert w.
  induction p as [r|e|X c k IH|req k IH|c k IH|k IH]; intro w; cbn [wp job];
    try (intro H; exact H).
  apply IH.
Qed.

End Rules.

(** A verified program run against an oracle. *)
Lemma wp_run env net R (p : Prog R) w Q :
  wp env (oracle net) p w Q ->
  Q (fst (run env net p w)) (snd (run env net p w)).
Proof.
  revert w.
  induction p as [r|e|X c k IH|req k IH|c k IH|k IH]; intro w;
    cbn [wp run]; auto.
  - intros [_ Hk]. apply IH, Hk. reflexivity.
  - intros [_ Hk]. apply IH, Hk. reflexivity.
  - intros [_ Hk]. apply IH, Hk.
Qed.

(** Against an oracle the logic is complete: what holds of the run can be
    shown in the logic. *)
Lemma wp_of_run env net R (p : Prog R) w Q :
  Q (fst (run env net p w)) (snd (run env net p w)) ->
  wp env (oracle net) p w Q.
Proof.
  revert w.
  induction p as [r|e|X c k IH|req k IH|c k IH|k IH]; intro w;
    cbn [wp run]; auto.
  - intro H. split; [exact I|]. intros r Hr; cbn in Hr; subst r. auto.
  - intro H. split; [exact I|]. intros r Hr; cbn in Hr; subst r. auto.
  - intro H. split; [exact I|]. auto.
Qed.

(** A program verified without awaits ends in its first turn. *)
Lemma wp_finishes env R (p : Prog R) w Q :
  wp env no_await p w Q ->
  exists r w', exec env p w = Finished r w' /\ Q r w'.
Proof.
  intro H. apply wp_exec in H.
  destruct (exec env p w) as [r w'|req k w'|c k w'].
  - exists r, w'. auto.
  - destruct H as [[] _].
  - destruct H as [[] _].
Qed.

Lemma wp_finishes_eq env R (p : Prog R) w r0 w0 :
  wp env no_await p w (fun r w' => r = r0 /\ w' = w0) ->
  exec env p w = Finished r0 w0.
Proof.
  intro H. apply wp_finishes in H.
  destruct H as (r & w' & He & -> & ->). exact He.
Qed.

(** A program verified without pauses ends in its first job. *)
Lemma wp_done env R (p : Prog R) w Q :
  wp env no_pause p w Q ->
  exists r w', job env p w = JobDone r w' /\ Q r w'.
Proof.
  intro H. apply wp_job in H.
  destruct (job env p w) as [r w'|req k w'|c k w'|k w'].
  - exists r, w'. auto.
  - destruct H as [[] _].
  - destruct H as [[] _].
  - destruct H as [[] _].
Qed.

Lemma wp_done_eq env R (p : Prog R) w r0 w0 :
  wp env no_pause p w (fun r w' => r = r0 /\ w' = w0) ->
  job env p w = JobDone r0 w0.
Proof.
  intro H. apply wp_done in H.
  destruct H as (r & w' & He & -> & ->). exact He.
Qed.

(** ** Proof tools *)

(** One rule of the logic, chosen by the shape of the program. *)
Ltac wp_rule :=
  lazymatch goal with
  | |- wp _ _ (bind _ _) _ _ => apply wp_bind
  | |- wp _ _ (try_catch _ _) _ _ => apply wp_try_catch
  | |- wp _ _ (try_finally _ _) _ _ => apply wp_try_finally
  | |- wp _ _ (awaited _) _ _ => apply wp_awaited
  | |- wp _ _ (call _) _ _ => apply wp_call
  | |- wp _ _ (settle _) _ _ => apply wp_settle
  | |- wp _ _ (Ret _) _ _ => apply wp_ret
  | |- wp _ _ (Throw _) _ _ => apply wp_throw
  end.

(** Compute the calls and the record projections; programs stay as they
    are. *)
Ltac wp_simpl :=
  cbn [interp fst snd negb orb andb truthy_opt_string truthy_user
       token rememberMe cached_user expiration localStorage user loading
       mounted tokenInfo pushes timers console requests logins
       set_token set_rememberMe set_cached_user set_user set_loading
       set_mounted set_tokenInfo set_pushes set_timers set_console
       set_requests set_logins sent login_sent
       replies login_replies at_await at_later oracle no_await no_pause
       awaiting];
  try unfold guarded.

(** Decide a test by a hypothesis. *)
Ltac wp_known :=
  match goal with
  | H : ?x = _ |- context [match ?x with _ => _ end] => rewrite H
  | H : ?x = _ |- context [if ?x then _ else _] => rewrite H
  | H : ?x = _ |- context [negb ?x] => rewrite H
  | H : ?x = _ |- context [truthy_opt_string ?x] => rewrite H
  | H : ?x = _ |- context [truthy_user ?x] => rewrite H
  end.

(** Split on a test the environment decides. *)
Ltac wp_split :=
  match goal with
  | |- context [match faults ?e ?c with _ => _ end] => destruct (faults e c) eqn:?
  | |- wp _ _ (match ?x with _ => _ end) _ _ => destruct x eqn:?
  | |- wp _ _ (if ?x then _ else _) _ _ => destruct x eqn:?
  | |- match ?x with _ => _ end => destruct x eqn:?
  end.

(** Close a branch whose tests contradict each other. *)
Ltac absurd_branch :=
  match goal with
  | H : _ = _ |- _ => cbn in H; discriminate H
  end.

(** A pause the frame allows. *)
Ltac wp_pause :=
  lazymatch goal with
  | |- True /\ _ => split; [exact I|]
  end.

Ltac wp_straight :=
  repeat first [ wp_rule | wp_pause | progress wp_simpl | wp_known ].
Ltac wp_go :=
  repeat first [ wp_rule | wp_pause | progress wp_simpl | wp_known
               | wp_split; try absurd_branch ].

(** Execute a turn inside a hypothesis. *)
Ltac reduce_in H :=
  repeat (progress (cbn -[Z.eqb Z.leb Z.mul String.eqb ok] in H;
                    try unfold guarded in H)).

Ltac case_in H :=
  match type of H with
  | context [faults ?e ?c] => destruct (faults e c) eqn:?
  | context [settle ?x] => destruct x eqn:?
  | context [match ?x with _ => _ end] => destruct x eqn:?
  end.

Ltac symex_in H :=
  reduce_in H; repeat (case_in H; reduce_in H); try discriminate H.

Ltac bool_hyps :=
  repeat match goal with
  | H : negb _ = false |- _ => apply negb_false_iff in H
  | H : negb _ = true |- _ => apply negb_true_iff in H
  | H : _ || _ = false |- _ => apply orb_false_iff in H; destruct H
  | H : _ && _ = true |- _ => apply andb_true_iff in H; destruct H
  end.

(** ** logout *)

Import AuthProvider.

Lemma throws_cleanup env c e :
  faults env c = Some e ->
  c = CGetToken \/ c = CRemoveToken \/ c = CRemoveUser \/ c = CRouterPush ->
  local_cleanup_throws env = true.
Proof.
  unfold local_cleanup_throws, throws.
  intros H [ -> | [ -> | [ -> | -> ] ] ]; rewrite H; cbn;
    rewrite ?orb_true_r; reflexivity.
Qed.

Lemma no_throws_cleanup env :
  faults env CGetToken = None -> faults env CRemoveToken = None ->
  faults env CRemoveUser = None -> faults env CRouterPush = None ->
  local_cleanup_throws env = false.
Proof.
  unfold local_cleanup_throws, throws. intros -> -> -> ->. reflexivity.
Qed.

Lemma no_cleanup_faults env :
  local_cleanup_throws env = false ->
  faults env CGetToken = None /\ faults env CRemoveToken = None /\
  faults env CRemoveUser = None /\ faults env CRouterPush = None.
Proof.
  unfold local_cleanup_throws, throws.
  destruct (faults env CGetToken), (faults env CRemoveToken),
    (faults env CRemoveUser), (faults env CRouterPush);
    simpl; intro; try discriminate; auto.
Qed.

(** [logout] in the logic: it never throws; it returns [true] after the
    whole cleanup, or [false] when a local cleanup call threw, and then it
    has left [loading] alone and the user as it was or [null]. *)
Lemma logout_wp env F w Q :
  (forall req, at_await F (sent req w)) ->
  (forall w', local_cleanup_throws env = false -> logged_out w w' ->
              Q (inr true) w') ->
  (forall w', local_cleanup_throws env = true ->
              loading w' = loading w -> mounted w' = mounted w ->
              user w' = user w \/ user w' = None ->
              Q (inr false) w') ->
  wp env F logout w Q.
Proof.
  intros Hawait Hok Hfail. unfold logout.
  wp_go.
  all: try (apply wp_fetch; [apply Hawait|intros r _]; destruct r; wp_go).
  all: try (apply Hfail;
            [eapply throws_cleanup; eauto|reflexivity|reflexivity|auto]; fail).
  all: apply Hok; [apply no_throws_cleanup; assumption|];
       unfold logged_out; wp_simpl; auto 10.
Qed.

(** What a run of [logout] gives. *)
Lemma logout_outcome env net w :
  let r := run env net logout w in
  (fst r = inr true \/ fst r = inr false) /\
  (fst r = inr false -> local_cleanup_throws env = true) /\
  (local_cleanup_throws env = false ->
   fst r = inr true /\ logged_out w (snd r)).
Proof.
  apply wp_run with (Q := fun r w' =>
    (r = inr true \/ r = inr false) /\
    (r = inr false -> local_cleanup_throws env = true) /\
    (local_cleanup_throws env = false -> r = inr true /\ logged_out w w')).
  apply logout_wp.
  - intros; exact I.
  - intros w' _ Hout. split; [auto|split; [discriminate|auto]].
  - intros w' Hc _ _ _. split; [auto|split; [auto|intro; congruence]].
Qed.

(** C1.  Whatever the network answers to the logout notification (in
    particular when it fails), [logout] never throws; when the local cleanup
    calls do not throw it returns [true] with the token and the cached user
    removed and the current user [null]; it returns [false] only when a
    local cleanup call throws. *)
Theorem logout_notification_is_best_effort env net w :
  let r := run env net logout w in
  (local_cleanup_throws env = false ->
     fst r = inr true /\
     token (snd r) = None /\ cached_user (snd r) = None /\ user (snd r) = None)
  /\ (fst r = inr false -> local_cleanup_throws env = true)
  /\ (fst r = inr true \/ fst r = inr false).
Proof.
  destruct (logout_outcome env net w) as (Hres & Hfalse & Hclean).
  split; [|split; assumption].
  intro Hc. destruct (Hclean Hc) as (Hr & Ht & Hcu & Hu & _).
  auto.
Qed.

Lemma logout_notification_is_best_effort_witness :
  let r := run Sample.browser Sample.offline logout
             (Sample.mounted_page (Some "tok") false (Some Sample.alice)) in
  requests (snd r) = [ReqLogout (Some "https://api.test") (Some "tok")] /\
  fetch_reply Sample.offline (ReqLogout (Some "https://api.test") (Some "tok"))
    = inl (Error "Failed to fetch") /\
  fst r = inr true /\
  token (snd r) = None /\ cached_user (snd r) = None /\ user (snd r) = None.
Proof.
  split; [reflexivity|]. split; [reflexivity|].
  apply (logout_notification_is_best_effort Sample.browser Sample.offline
           (Sample.mounted_page (Some "tok") false (Some Sample.alice))).
  reflexivity.
Defined.

(** C10.  When the Token Store holds no token, [logout] ends in its first
    turn without any network request, whatever the collaborators do; and
    when its local cleanup calls do not throw it removes the token and the
    cached user, sets the current user and the token info to [null], pushes
    the login route and returns [true]. *)
Theorem logout_without_token env w :
  truthy_opt_string (token w) = false ->
  (exists r w', exec env logout w = Finished r w' /\ requests w' = requests w) /\
  (local_cleanup_throws env = false ->
   exec env logout w =
     Finished (inr true)
       (set_pushes (pushes w ++ ["/login"])
          (set_tokenInfo None
             (set_user None (set_cached_user None (set_token None w)))))).
Proof.
  intros Htok. split.
  - apply wp_finishes. unfold logout.
    destruct (token w) as [t|] eqn:Ht; cbn [truthy_opt_string] in Htok.
    + wp_go; reflexivity.
    + wp_go; reflexivity.
  - intro Hc.
    apply no_cleanup_faults in Hc. destruct Hc as (F1 & F2 & F3 & F4).
    apply wp_finishes_eq. unfold logout.
    destruct (token w) as [t|] eqn:Ht; cbn [truthy_opt_string] in Htok.
    + wp_straight. auto.
    + wp_straight. auto.
Qed.

Lemma logout_without_token_witness :
  let w := Sample.mounted_page None false (Some Sample.alice) in
  (exists r w', exec Sample.browser logout w = Finished r w' /\
                requests w' = requests w) /\
  exec Sample.browser logout w =
    Finished (inr true)
      (set_pushes ["/login"]
         (set_tokenInfo None
            (set_user None (set_cached_user None (set_token None w))))).
Proof.
  destruct (logout_without_token Sample.browser
              (Sample.mounted_page None false (Some Sample.alice)) eq_refl)
    as [Hquiet Hclean].
  split; [exact Hquiet|exact (Hclean eq_refl)].
Defined.

(** ** refreshUser and the mount-time reconciliation *)

(** C2.  When the Token Store holds a token and a cached user (and reading
    them does not throw), [refreshUser] ends in its first turn with the
    current user set to the cached record and nothing else changed, so no
    request is sent; the mount-time reconciliation [checkAuth] does the same
    and ends with [loading] false. *)
Theorem refreshUser_adopts_cached_user env w u :
  window_defined env = true ->
  faults env CGetToken = None -> faults env CGetUser = None ->
  faults env CIsAuthenticated = None ->
  truthy_opt_string (token w) = true ->
  cached_user w = Some u ->
  exec env refreshUser w = Finished (inr tt) (set_user (Some u) w) /\
  exec env (checkAuth true) w =
    Finished (inr tt) (set_loading false (set_user (Some u) (set_loading true w))) /\
  requests (set_user (Some u) w) = requests w.
Proof.
  intros Hwin Hf1 Hf2 Hf3 Htok Hu.
  split; [|split; [|reflexivity]]; apply wp_finishes_eq.
  - unfold refreshUser. wp_straight. auto.
  - unfold checkAuth. wp_straight. unfold refreshUser. wp_straight. auto.
Qed.

Lemma refreshUser_adopts_cached_user_witness :
  let w := Sample.mounted_page (Some "tok") false (Some Sample.alice) in
  exec Sample.browser refreshUser w = Finished (inr tt) (set_user (Some Sample.alice) w) /\
  exec Sample.browser (checkAuth true) w =
    Finished (inr tt)
      (set_loading false (set_user (Some Sample.alice) (set_loading true w))) /\
  requests (set_user (Some Sample.alice) w) = requests w.
Proof.
  apply (@refreshUser_adopts_cached_user Sample.browser
           (Sample.mounted_page (Some "tok") false (Some Sample.alice))
           Sample.alice); reflexivity.
Defined.

Lemma no_truthy_user (u : option User) : truthy_user u = false -> u = None.
Proof. destruct u; [discriminate|reflexivity]. Qed.

(** When [refreshUser] waits for the network, it is for the identity fetch,
    and the conditions of [reaches_identity_fetch] hold. *)
Lemma refreshUser_awaits env w req k w1 :
  exec env refreshUser w = AwaitFetch req k w1 ->
  exists uid,
    reaches_identity_fetch env w uid /\
    req = ReqGetUser (NEXT_PUBLIC_API_URL env) uid (token w) /\ w1 = sent req w.
Proof.
  intro H. unfold refreshUser in H. symex_in H.
  all: inversion H; subst; clear H; bool_hyps.
  all: eexists; split; [constructor; eauto using no_truthy_user|split; reflexivity].
Qed.

Lemma checkAuth_awaits env w req k w1 :
  exec env (checkAuth true) w = AwaitFetch req k w1 ->
  faults env CIsAuthenticated = None /\
  exists uid,
    reaches_identity_fetch env w uid /\
    req = ReqGetUser (NEXT_PUBLIC_API_URL env) uid (token w).
Proof.
  intro H. unfold checkAuth in H. symex_in H.
  all: inversion H; subst; clear H; bool_hyps.
  all: split; [reflexivity|].
  all: eexists; split; [constructor; eauto using no_truthy_user|reflexivity].
Qed.

(** Follow [refreshUser] down to its fetch. *)
Ltac to_fetch R :=
  let s := fresh "s" in
  let Hs := fresh "Hs" in
  let Hs' := fresh "Hs'" in
  let Hp := fresh "Hp" in
  destruct R as [? ? ? ? ? ? ? (s & Hs & Hs' & Hp) ?];
  wp_straight; unfold refreshUser; wp_straight.

(** C3.  When a call to [refreshUser] reaches its fetch-user request and the
    response has status 401, the logout sequence runs: [refreshUser] returns
    in the world a call to [logout] leaves; so, with local cleanup calls
    that do not throw, the current user is [null], the token and the cached
    user are removed from the Token Store and the login route is pushed,
    whatever the logout notification answers. *)
Theorem refreshUser_401_forces_logout env net w req k w1 resp :
  exec env refreshUser w = AwaitFetch req k w1 ->
  fetch_reply net req = inr resp ->
  status resp = 401 ->
  let r := run env net refreshUser w in
  fst r = inr tt /\
  snd r = snd (run env net logout w1) /\
  (local_cleanup_throws env = false ->
   user (snd r) = None /\
   token (snd r) = None /\ cached_user (snd r) = None /\
   pushes (snd r) = (pushes w ++ ["/login"])%list).
Proof.
  intros Hexec Hreply Hst r; subst r.
  apply refreshUser_awaits in Hexec.
  destruct Hexec as (uid & R & Hreq & ->).
  apply Z.eqb_eq in Hst.
  destruct (logout_outcome env net (sent req w)) as (Hres & _ & Hclean).
  assert (Hfacts : local_cleanup_throws env = false ->
            user (snd (run env net logout (sent req w))) = None /\
            token (snd (run env net logout (sent req w))) = None /\
            cached_user (snd (run env net logout (sent req w))) = None /\
            pushes (snd (run env net logout (sent req w)))
              = (pushes w ++ ["/login"])%list).
  { intro Hc. destruct (Hclean Hc) as (_ & Ht' & Hcu' & Hu' & _ & Hpu' & _). auto. }
  apply wp_run with (Q := fun r w' =>
    r = inr tt /\
    w' = snd (run env net logout (sent req w)) /\
    (local_cleanup_throws env = false ->
     user w' = None /\ token w' = None /\ cached_user w' = None /\
     pushes w' = (pushes w ++ ["/login"])%list)).
  to_fetch R. rewrite <- Hreq.
  apply wp_fetch; [exact I|intros r Hr; cbn in Hr; subst r; rewrite Hreply].
  wp_straight.
  apply wp_of_run.
  destruct Hres as [-> | ->]; wp_straight; auto.
Qed.

Lemma refreshUser_401_forces_logout_witness :
  let w := Sample.mounted_page (Some "tok") false None in
  let r := run Sample.browser (Sample.answering 401) refreshUser w in
  fst r = inr tt /\
  snd r = snd (run Sample.browser (Sample.answering 401) logout
                 (sent (ReqGetUser (Some "https://api.test") (JNum 7) (Some "tok")) w)) /\
  user (snd r) = None /\
  token (snd r) = None /\ cached_user (snd r) = None /\
  pushes (snd r) = ["/login"].
Proof.
  destruct (@refreshUser_401_forces_logout Sample.browser (Sample.answering 401)
              (Sample.mounted_page (Some "tok") false None)
              _ _ _ _ eq_refl eq_refl eq_refl) as (Hr & Hw & Hclean).
  split; [exact Hr|]. split; [exact Hw|]. exact (Hclean eq_refl).
Defined.

(** C4, as the code has it.  When the mount-time reconciliation reaches the
    identity fetch and the fetch resolves no user without being a 401, the
    reconciliation ends with the current user [null] and [loading] false,
    and the Token Store is left as it was: the token is still there, and no
    logout request is sent. *)
Theorem unresolved_identity_keeps_token_store env net w req k w1 :
  exec env (checkAuth true) w = AwaitFetch req k w1 ->
  identity_unresolved (fetch_reply net req) = true ->
  let r := run env net (checkAuth true) w in
  fst r = inr tt /\ user (snd r) = None /\ loading (snd r) = false /\
  truthy_opt_string (token (snd r)) = true /\
  token (snd r) = token w /\ cached_user (snd r) = cached_user w /\
  rememberMe (snd r) = rememberMe w /\
  requests (snd r) = (requests w ++ [req])%list.
Proof.
  intros Hexec Hun r; subst r.
  apply checkAuth_awaits in Hexec.
  destruct Hexec as (F0 & uid & R & ->).
  assert (Htok : truthy_opt_string (token w) = true) by (destruct R; assumption).
  apply wp_run with (Q := fun r w' =>
    r = inr tt /\ user w' = None /\ loading w' = false /\
    truthy_opt_string (token w') = true /\
    token w' = token w /\ cached_user w' = cached_user w /\
    rememberMe w' = rememberMe w /\
    requests w' =
      (requests w ++ [ReqGetUser (NEXT_PUBLIC_API_URL env) uid (token w)])%list).
  unfold checkAuth. to_fetch R.
  apply wp_fetch; [exact I|intros r Hr; cbn in Hr; subst r].
  unfold identity_unresolved in Hun.
  destruct (fetch_reply net _) as [err|resp].
  - wp_straight. auto 10.
  - bool_hyps.
    destruct (ok resp) eqn:Hok; cbn [negb orb] in *.
    + destruct (json resp) as [err|d] eqn:Hjson.
      * wp_straight. auto 10.
      * bool_hyps. destruct (first_detail d) eqn:Hd; [discriminate|].
        wp_straight. auto 10.
    + wp_straight. auto 10.
Qed.

Lemma unresolved_identity_keeps_token_store_witness :
  let w := Sample.mounted_page (Some "tok") false None in
  let r := run Sample.browser (Sample.answering 500) (checkAuth true) w in
  fst r = inr tt /\ user (snd r) = None /\ loading (snd r) = false /\
  truthy_opt_string (token (snd r)) = true /\
  token (snd r) = token w /\ cached_user (snd r) = cached_user w /\
  rememberMe (snd r) = rememberMe w /\
  requests (snd r) = [ReqGetUser (Some "https://api.test") (JNum 7) (Some "tok")].
Proof.
  eapply (@unresolved_identity_keeps_token_store Sample.browser (Sample.answering 500)
            (Sample.mounted_page (Some "tok") false None));
    reflexivity.
Defined.

(** C4, as stated, fails: a token exists, the identity fetch answers 500, the
    session settles Anonymous, and the token is still in the Token Store. *)
Lemma token_store_not_cleared_on_fetch_failure :
  let w := Sample.mounted_page (Some "tok") false None in
  let net := Sample.answering 500 in
  let r := run Sample.browser net (checkAuth true) w in
  token w = Some "tok" /\
  requests (snd r) = [ReqGetUser (Some "https://api.test") (JNum 7) (Some "tok")] /\
  identity_unresolved
    (fetch_reply net (ReqGetUser (Some "https://api.test") (JNum 7) (Some "tok"))) = true /\
  user (snd r) = None /\ loading (snd r) = false /\
  token (snd r) = Some "tok" /\
  ~ (token (snd r) = None).
Proof.
  vm_compute. repeat split; discriminate.
Qed.

(** ** The countdown arguments *)

Lemma sessionTimeoutArgs_eq env w :
  faults env CGetRememberMe = None ->
  sessionTimeoutArgs env w =
    Some (mkArgs (if rememberMe w then 14 * 24 * 60 else 2 * 60) 30
                 (truthy_user (user w))).
Proof.
  intro Hf. unfold sessionTimeoutArgs, useSessionTimeout_args, getSessionTimeout.
  cbn [exec bind call interp fst snd]. unfold guarded. rewrite Hf.
  cbn [fst snd settle bind]. destruct (rememberMe w); reflexivity.
Qed.

Lemma armed_has_user env w :
  countdown_armed env w = true -> truthy_user (user w) = true.
Proof.
  unfold countdown_armed, sessionTimeoutArgs, useSessionTimeout_args,
    getSessionTimeout.
  cbn [exec bind call interp fst snd]. unfold guarded.
  destruct (faults env CGetRememberMe); cbn [fst snd settle bind exec].
  - discriminate.
  - destruct (rememberMe w); cbn [exec isAuthenticated]; auto.
Qed.

Lemma armed_by_user env w :
  faults env CGetRememberMe = None ->
  countdown_armed env w = truthy_user (user w).
Proof.
  intro Hf. unfold countdown_armed.
  rewrite (sessionTimeoutArgs_eq env w Hf). reflexivity.
Qed.

Lemma no_user_not_armed env w :
  user w = None -> countdown_armed env w = false.
Proof.
  intro Hu. destruct (countdown_armed env w) eqn:Ha; [|reflexivity].
  apply armed_has_user in Ha. rewrite Hu in Ha. discriminate.
Qed.

(** C5.  Whenever the component renders (reading the remember-me flag does
    not throw), the hook is given a duration of 14 * 24 * 60 minutes when
    the persisted flag is true and 2 * 60 = 120 minutes when it is false,
    and a warning window of 30 seconds; nothing else in the environment or
    the world has a say. *)
Theorem session_timeout_is_fixed_policy env w :
  faults env CGetRememberMe = None ->
  exists a,
    sessionTimeoutArgs env w = Some a /\
    timeoutInMinutes a = (if rememberMe w then 14 * 24 * 60 else 120) /\
    (rememberMe w = true -> timeoutInMinutes a = 20160) /\
    (rememberMe w = false -> timeoutInMinutes a = 120) /\
    warningInSeconds a = 30.
Proof.
  intro Hf. eexists. split; [apply sessionTimeoutArgs_eq, Hf|].
  cbn [timeoutInMinutes warningInSeconds].
  destruct (rememberMe w); repeat split; auto; discriminate.
Qed.

Lemma session_timeout_is_fixed_policy_witness :
  exists a,
    sessionTimeoutArgs Sample.browser (Sample.mounted_page (Some "tok") true None)
      = Some a /\
    timeoutInMinutes a = 14 * 24 * 60 /\
    (true = true -> timeoutInMinutes a = 20160) /\
    (true = false -> timeoutInMinutes a = 120) /\
    warningInSeconds a = 30.
Proof.
  apply (session_timeout_is_fixed_policy Sample.browser
           (Sample.mounted_page (Some "tok") true None)).
  reflexivity.
Defined.

(** ** login *)

(** C6.  When the Identity Client rejects the credentials, [login] throws
    the very error it was given, and leaves the session as it was: the
    current user, [loading], the token info and the Token Store are
    unchanged, no route is pushed and no redirect timer is set. *)
Theorem login_rejection_is_rethrown env net w e p rm err :
  login_reply net
    (mkCredentials e p (match rm with Some b => b | None => false end)) = inl err ->
  let r := run env net (login e p rm) w in
  fst r = inl err /\
  user (snd r) = user w /\ loading (snd r) = loading w /\
  tokenInfo (snd r) = tokenInfo w /\
  token (snd r) = token w /\ rememberMe (snd r) = rememberMe w /\
  cached_user (snd r) = cached_user w /\
  pushes (snd r) = pushes w /\ timers (snd r) = timers w.
Proof.
  intros Hrej r; subst r.
  apply wp_run with (Q := fun r w' =>
    r = inl err /\ user w' = user w /\ loading w' = loading w /\
    tokenInfo w' = tokenInfo w /\ token w' = token w /\
    rememberMe w' = rememberMe w /\ cached_user w' = cached_user w /\
    pushes w' = pushes w /\ timers w' = timers w).
  unfold login. wp_straight. unfold loginUser.
  apply wp_login_request; [exact I|intros r Hr; cbn in Hr; subst r].
  rewrite Hrej. wp_straight. auto 10.
Qed.

Lemma login_rejection_is_rethrown_witness :
  let w := Sample.mounted_page None false None in
  let r := run Sample.browser (Sample.answering 200)
             (login "alice@test" "wrong" (Some true)) w in
  fst r = inl (Error "Invalid credentials") /\
  user (snd r) = None /\ loading (snd r) = loading w /\
  tokenInfo (snd r) = tokenInfo w /\
  token (snd r) = token w /\ rememberMe (snd r) = rememberMe w /\
  cached_user (snd r) = cached_user w /\
  pushes (snd r) = [] /\ timers (snd r) = [].
Proof.
  apply (@login_rejection_is_rethrown Sample.browser (Sample.answering 200)
           (Sample.mounted_page None false None) "alice@test" "wrong" (Some true)).
  reflexivity.
Defined.

(** C9.  [login] without its third argument is [login] with [false]: the
    same program, which asks the Identity Client with [rememberMe = false];
    when it succeeds the persisted flag is false and the next render gives
    the hook the 120 minutes of the short session. *)
Theorem login_rememberMe_defaults_to_false e p :
  login e p None = login e p (Some false) /\
  forall env net w,
    let r := run env net (login e p None) w in
    logins (snd r) = (logins w ++ [mkCredentials e p false])%list /\
    (fst r = inr tt ->
     rememberMe (snd r) = false /\
     (faults env CGetRememberMe = None ->
      option_map timeoutInMinutes (sessionTimeoutArgs env (snd r)) = Some 120)).
Proof.
  split; [reflexivity|].
  intros env net w r; subst r.
  apply wp_run with (Q := fun r w' =>
    logins w' = (logins w ++ [mkCredentials e p false])%list /\
    (r = inr tt ->
     rememberMe w' = false /\
     (faults env CGetRememberMe = None ->
      option_map timeoutInMinutes (sessionTimeoutArgs env w') = Some 120))).
  assert (Hshort : forall w', rememberMe w' = false ->
            faults env CGetRememberMe = None ->
            option_map timeoutInMinutes (sessionTimeoutArgs env w') = Some 120).
  { intros w' Hrm Hf. rewrite (sessionTimeoutArgs_eq env w' Hf), Hrm. reflexivity. }
  unfold login. wp_straight. unfold loginUser.
  apply wp_login_request; [exact I|intros r _].
  destruct r as [err|d]; wp_go.
  all: split; [reflexivity|]; intro Hr; try discriminate Hr.
  split; [reflexivity|]. apply Hshort. reflexivity.
Qed.

Lemma login_rememberMe_defaults_to_false_witness :
  let r := run Sample.browser Sample.welcoming (login "alice@test" "pw" None)
             (Sample.mounted_page None true None) in
  fst r = inr tt /\
  logins (snd r) = [mkCredentials "alice@test" "pw" false] /\
  rememberMe (snd r) = false /\
  option_map timeoutInMinutes (sessionTimeoutArgs Sample.browser (snd r)) = Some 120.
Proof.
  pose proof (proj2 (login_rememberMe_defaults_to_false "alice@test" "pw")
                Sample.browser Sample.welcoming
                (Sample.mounted_page None true None)) as [Hl Hs].
  destruct (Hs eq_refl) as [Hrm Ht].
  split; [reflexivity|split; [exact Hl|split; [exact Hrm|exact (Ht eq_refl)]]].
Defined.

(** ** The mount-time reconciliation as a system *)

(** [checkAuth] in the logic: whatever the network answers, it ends with
    [loading] false and [mounted] as it was. *)
Lemma checkAuth_wp env net w :
  window_defined env = true ->
  wp env (oracle net) (checkAuth true) w
     (fun _ w' => loading w' = false /\ mounted w' = mounted w).
Proof.
  intros Hwin. unfold checkAuth. wp_straight.
  wp_go; try (split; reflexivity).
  unfold refreshUser. wp_go; try (split; reflexivity).
  apply wp_fetch; [exact I|intros r _].
  destruct r as [err|resp]; wp_go; try (split; reflexivity).
  apply logout_wp.
  - intros req'. exact I.
  - intros w' _ (_ & _ & _ & _ & _ & Hl & Hm & _). wp_go. auto.
  - intros w' _ Hl Hm _. wp_go. auto.
Qed.

(** Without a token [checkAuth] ends in its first job, Anonymous. *)
Lemma checkAuth_without_token env w :
  window_defined env = true ->
  truthy_opt_string (token w) = false ->
  wp env no_pause (checkAuth true) w
     (fun _ w' => user w' = None /\ loading w' = false /\
                  mounted w' = mounted w).
Proof.
  intros Hwin Htok. unfold checkAuth. wp_straight.
  wp_go.
  all: repeat split; auto.
Qed.

(** Spawning a verified program from an idle system: it is over, or it is
    the one parked task. *)
Lemma spawn_idle env (A Q : World -> Prop) p w deps :
  wp env (awaiting A) p w (fun _ => Q) ->
  let s' := spawn env p (mkSys w [] deps) in
  auth_effect_deps s' = deps /\
  match tasks s' with
  | [] => Q (world s')
  | [t] => A (world s') /\ task_wp env (awaiting A) Q (world s') t
  | _ => False
  end.
Proof.
  intros Hwp. apply wp_job in Hwp. unfold spawn. cbn [world tasks auth_effect_deps].
  destruct (job env p w) as [r w'|req k w'|c k w'|k w'];
    cbn [tasks world auth_effect_deps app]; (split; [reflexivity|]).
  - exact Hwp.
  - destruct Hwp as [Ha Hk]. split; [exact Ha|].
    intro r. apply Hk. exact I.
  - destruct Hwp as [Ha Hk]. split; [exact Ha|].
    intro r. apply Hk. exact I.
  - exact Hwp.
Qed.

Section MountOnly.
Variable env : Env.
Variables Pre A Q : World -> Prop.
Hypothesis Pre_mounted : forall w, Pre w -> Pre (set_mounted true w).
Hypothesis Pre_checkAuth :
  forall w, Pre w -> mounted w = true ->
            wp env (awaiting A) (checkAuth true) w (fun _ => Q).
Hypothesis A_mounted : forall w, A w -> mounted w = true.
Hypothesis Q_mounted : forall w, Q w -> mounted w = true.

Lemma mount_inv_boot w0 : Pre (page_load w0) -> mount_inv env Pre A Q (boot w0).
Proof. intro H. unfold mount_inv, boot; cbn. auto. Qed.

Lemma mount_inv_resume w deps p :
  deps = Some true ->
  wp env (awaiting A) p w (fun _ => Q) ->
  mount_inv env Pre A Q (spawn env p (mkSys w [] deps)).
Proof.
  intros -> Hwp.
  destruct (@spawn_idle env A Q p w (Some true) Hwp) as [Hd Ht].
  unfold mount_inv. rewrite Hd. exact Ht.
Qed.

Lemma mount_inv_step ev s s' :
  mount_event ev = true ->
  mount_inv env Pre A Q s ->
  dispatch env ev s = Some s' ->
  mount_inv env Pre A Q s'.
Proof.
  intros Hev Hinv Hd.
  destruct s as [w ts deps]. unfold mount_inv in Hinv.
  cbn [world tasks auth_effect_deps] in Hinv.
  destruct ev; try discriminate Hev; unfold dispatch in Hd;
    cbn [world tasks auth_effect_deps] in Hd.
  - (* the first commit *)
    destruct deps as [d|]; [discriminate|].
    destruct Hinv as (Hpre & Hm & ->).
    rewrite Hm in Hd. injection Hd as <-.
    unfold mount_inv; cbn. auto.
  - (* the [mounted] effect runs again *)
    destruct deps as [[|]|]; try discriminate.
    + assert (Hm : mounted w = true).
      { destruct ts as [|t [|t' ts]]; [apply Q_mounted, Hinv| |destruct Hinv].
        apply A_mounted, Hinv. }
      rewrite Hm in Hd. discriminate.
    + destruct Hinv as (Hpre & Hm & ->). rewrite Hm in Hd.
      cbn [Bool.eqb authEffect] in Hd. injection Hd as <-.
      destruct (@spawn_idle env A Q (checkAuth true) w (Some false)
                  (Pre_checkAuth w Hpre Hm)) as [_ Ht].
      unfold mount_inv; cbn [auth_effect_deps world tasks]. exact Ht.
  - (* a fetch settles *)
    destruct deps as [[|]|].
    + destruct ts as [|t [|t' ts]].
      * destruct i; discriminate.
      * destruct i as [|i]; [|destruct i; discriminate].
        cbn [nth_error] in Hd. destruct t as [req k|c k|k]; try discriminate.
        injection Hd as <-. cbn [remove_nth].
        apply mount_inv_resume; [reflexivity|]. apply Hinv.
      * destruct Hinv.
    + destruct Hinv as (_ & _ & ->). destruct i; discriminate.
    + destruct Hinv as (_ & _ & ->). destruct i; discriminate.
  - (* a login request settles *)
    destruct deps as [[|]|].
    + destruct ts as [|t [|t' ts]].
      * destruct i; discriminate.
      * destruct i as [|i]; [|destruct i; discriminate].
        cbn [nth_error] in Hd. destruct t as [req k|c k|k]; try discriminate.
        injection Hd as <-. cbn [remove_nth].
        apply mount_inv_resume; [reflexivity|]. apply Hinv.
      * destruct Hinv.
    + destruct Hinv as (_ & _ & ->). destruct i; discriminate.
    + destruct Hinv as (_ & _ & ->). destruct i; discriminate.
  - (* a queued continuation runs *)
    destruct deps as [[|]|].
    + destruct ts as [|t [|t' ts]].
      * destruct i; discriminate.
      * destruct i as [|i]; [|destruct i; discriminate].
        cbn [nth_error] in Hd. destruct t as [req k|c k|k]; try discriminate.
        injection Hd as <-. cbn [remove_nth].
        apply mount_inv_resume; [reflexivity|]. apply Hinv.
      * destruct Hinv.
    + destruct Hinv as (_ & _ & ->). destruct i; discriminate.
    + destruct Hinv as (_ & _ & ->). destruct i; discriminate.
Qed.

Lemma mount_inv_run evs : forall s s',
  forallb mount_event evs = true ->
  mount_inv env Pre A Q s ->
  run_events env evs s = Some s' ->
  mount_inv env Pre A Q s'.
Proof.
  induction evs as [|ev evs IH]; intros s s' Hevs Hinv Hrun; cbn in Hrun.
  - injection Hrun as <-. exact Hinv.
  - cbn in Hevs. apply andb_true_iff in Hevs. destruct Hevs as [Hev Hevs].
    destruct (dispatch env ev s) as [s1|] eqn:Hd; [|discriminate].
    apply (IH s1 s' Hevs); [|exact Hrun].
    apply (mount_inv_step ev s s1 Hev Hinv Hd).
Qed.

End MountOnly.

(** ** The discipline of [loading] *)

Lemma stable_refl w : stable w w.
Proof. split; auto. Qed.

Lemma stable_trans w1 w2 w3 : stable w1 w2 -> stable w2 w3 -> stable w1 w3.
Proof. intros [Hm1 Hl1] [Hm2 Hl2]. split; [congruence|auto]. Qed.

(** What an allowed call does to [mounted] and [loading]. *)
Lemma lowers_only_interp env X (c : Call X) w :
  lowers_only c = true ->
  stable w (snd (interp env c w)) /\
  (clears_loading c = true -> loading (snd (interp env c w)) = false).
Proof.
  intro Hc. unfold stable.
  destruct c; cbn [lowers_only clears_loading] in *; try discriminate;
    cbn [interp fst snd]; unfold guarded;
    try match goal with
        | |- context [faults ?e ?x] => destruct (faults e x)
        end;
    cbn; repeat split; auto; try discriminate.
  all: destruct b; cbn in *; auto; discriminate.
Qed.

(** One job of a tame program. *)
Lemma tame_job env closing R (p : Prog R) : forall cleared w,
  tame closing cleared p ->
  (cleared = true -> loading w = false) ->
  match job env p w with
  | JobDone _ w' => stable w w' /\ (closing = true -> loading w' = false)
  | JobFetch _ k w' =>
      stable w w' /\
      exists cleared', (cleared' = true -> loading w' = false) /\
                       forall r, tame closing cleared' (k r)
  | JobLogin _ k w' =>
      stable w w' /\
      exists cleared', (cleared' = true -> loading w' = false) /\
                       forall r, tame closing cleared' (k r)
  | JobLater k w' =>
      stable w w' /\
      exists cleared', (cleared' = true -> loading w' = false) /\
                       tame closing cleared' k
  end.
Proof.
  induction p as [r|e|X c k IH|req k IH|c k IH|k IH]; intros cleared w Ht Hc;
    cbn [job tame] in *.
  - split; [apply stable_refl|auto].
  - split; [apply stable_refl|auto].
  - destruct Ht as [Hlow Hk].
    destruct (lowers_only_interp env X c w Hlow) as [Hst Hcl].
    specialize (IH (fst (interp env c w)) (cleared || clears_loading c)
                   (snd (interp env c w)) (Hk _)).
    assert (Hc' : cleared || clears_loading c = true ->
                  loading (snd (interp env c w)) = false).
    { intro H. apply orb_true_iff in H. destruct H as [H|H]; [|auto].
      apply Hst, Hc, H. }
    specialize (IH Hc').
    destruct (job env (k (fst (interp env c w))) (snd (interp env c w)))
      as [r w'|req k' w'|c' k' w'|k' w'];
      destruct IH as [Hst' Hrest]; (split; [eapply stable_trans; eauto|exact Hrest]).
  - split; [split; cbn; auto|]. exists cleared. split; [cbn; exact Hc|exact Ht].
  - split; [split; cbn; auto|]. exists cleared. split; [cbn; exact Hc|exact Ht].
  - split; [apply stable_refl|]. exists cleared. auto.
Qed.

(** For a program that need not close, what is cleared does not matter. *)
Lemma tame_any R (p : Prog R) : forall c c', tame false c p -> tame false c' p.
Proof.
  induction p as [r|e|X c k IH|req k IH|c k IH|k IH]; intros b b'; cbn [tame].
  - discriminate.
  - discriminate.
  - intros [Hl Hk]. split; [exact Hl|]. intro x. eapply IH, Hk.
  - intros Hk r. eapply IH, Hk.
  - intros Hk r. eapply IH, Hk.
  - apply IH.
Qed.

(** A closing program is tame. *)
Lemma tame_weaken R (p : Prog R) : forall closing c, tame closing c p -> tame false c p.
Proof.
  induction p as [r|e|X c k IH|req k IH|c k IH|k IH]; intros closing b;
    cbn [tame].
  - discriminate.
  - discriminate.
  - intros [Hl Hk]. split; [exact Hl|]. intro x. eapply IH, Hk.
  - intros Hk r. eapply IH, Hk.
  - intros Hk r. eapply IH, Hk.
  - apply IH.
Qed.

(** Programs that never set [loading] or [mounted], construct by
    construct. *)
Lemma quiet_bind A B (p : Prog A) (f : A -> Prog B) :
  tame false false p -> (forall a, tame false false (f a)) -> tame false false (bind p f).
Proof.
  intros Hp Hf.
  induction p as [r|e|X c k IH|req k IH|c k IH|k IH]; cbn [bind tame] in *.
  - apply Hf.
  - discriminate.
  - destruct Hp as [Hl Hk]. split; [exact Hl|]. intro x.
    apply tame_any with (c := false). apply IH.
    apply tame_any with (c := false || clears_loading c). apply Hk.
  - intro r. apply IH, Hp.
  - intro r. apply IH, Hp.
  - apply IH, Hp.
Qed.

Lemma quiet_try_catch A (p : Prog A) (h : exn -> Prog A) :
  tame false false p -> (forall e, tame false false (h e)) -> tame false false (try_catch p h).
Proof.
  intros Hp Hh.
  induction p as [r|e|X c k IH|req k IH|c k IH|k IH]; cbn [try_catch tame] in *.
  - discriminate.
  - apply Hh.
  - destruct Hp as [Hl Hk]. split; [exact Hl|]. intro x.
    apply tame_any with (c := false). apply IH.
    apply tame_any with (c := false || clears_loading c). apply Hk.
  - intro r. apply IH, Hp.
  - intro r. apply IH, Hp.
  - apply IH, Hp.
Qed.

Lemma quiet_awaited A (p : Prog A) : tame false false p -> tame false false (awaited p).
Proof.
  intros Hp.
  induction p as [r|e|X c k IH|req k IH|c k IH|k IH]; cbn [awaited tame] in *.
  - discriminate.
  - discriminate.
  - destruct Hp as [Hl Hk]. split; [exact Hl|]. intro x.
    apply tame_any with (c := false). apply IH.
    apply tame_any with (c := false || clears_loading c). apply Hk.
  - intro r. apply IH, Hp.
  - intro r. apply IH, Hp.
  - apply IH, Hp.
Qed.

Lemma quiet_settle X (r : result X) : tame false false (settle r).
Proof. destruct r; cbn; discriminate. Qed.

Lemma quiet_call X (c : Call X) : lowers_only c = true -> tame false false (call c).
Proof.
  intro Hl. unfold call. cbn [tame]. split; [exact Hl|].
  intro x. apply tame_any with (c := false). apply quiet_settle.
Qed.

Lemma quiet_do R X (c : Call X) (k : result X -> Prog R) :
  lowers_only c = true -> (forall x, tame false false (k x)) ->
  tame false false (Do c k).
Proof.
  intros Hl Hk. cbn [tame]. split; [exact Hl|].
  intro x. apply tame_any with (c := false). apply Hk.
Qed.

Lemma quiet_fetch req : tame false false (fetch req).
Proof. unfold fetch. cbn [tame]. intro r. apply quiet_settle. Qed.

Lemma quiet_ret X (x : X) : tame false false (Ret x).
Proof. cbn. discriminate. Qed.

Lemma quiet_throw X e : tame false false (@Throw X e).
Proof. cbn. discriminate. Qed.

(** Show that a program of the component is tame, construct by
    construct. *)
Ltac quiet_step :=
  lazymatch goal with
  | |- tame false false (bind _ _) => apply quiet_bind; [|intro]
  | |- tame false false (try_catch _ _) => apply quiet_try_catch; [|intro]
  | |- tame false false (awaited _) => apply quiet_awaited
  | |- tame false false (call _) => apply quiet_call; reflexivity
  | |- tame false false (Do _ _) => apply quiet_do; [reflexivity|intro]
  | |- tame false false (fetch _) => apply quiet_fetch
  | |- tame false false (settle _) => apply quiet_settle
  | |- tame false false (Ret _) => apply quiet_ret
  | |- tame false false (Throw _) => apply quiet_throw
  | |- tame false false (if ?b then _ else _) => destruct b
  | |- tame false false (match ?x with _ => _ end) => destruct x
  end.

Lemma quiet_logout : tame false false logout.
Proof. unfold logout. repeat quiet_step. Qed.

Lemma quiet_refreshUser : tame false false refreshUser.
Proof. unfold refreshUser. repeat quiet_step. apply quiet_logout. Qed.

Lemma quiet_login e p rm : tame false false (login e p rm).
Proof.
  unfold login, loginUser. repeat quiet_step.
  cbn [bind tame]. intro r. destruct r; repeat quiet_step.
Qed.

Lemma quiet_timer_body cb : tame false false (timer_body cb).
Proof. destruct cb. unfold timer_body. repeat quiet_step. Qed.

Lemma quiet_detach R (p : Prog R) : tame false false p -> tame false false (detach p).
Proof. intro H. unfold detach. apply quiet_bind; [exact H|]. intro. apply quiet_ret. Qed.

(** [try { p } finally { setLoading(false) }] closes. *)
Lemma tame_finally_clears A (p : Prog A) : forall cleared,
  tame false cleared p ->
  tame true cleared (try_finally p (call (SetLoading false))).
Proof.
  induction p as [r|e|X c k IH|req k IH|c k IH|k IH]; intros cleared Hp;
    cbn [try_finally bind call tame] in *.
  - split; [reflexivity|]. intros [e|x]; cbn; intros _; apply orb_true_r.
  - split; [reflexivity|]. intros [e'|x]; cbn; intros _; apply orb_true_r.
  - destruct Hp as [Hl Hk]. split; [exact Hl|]. intro x. apply IH, Hk.
  - intro r. apply IH, Hp.
  - intro r. apply IH, Hp.
  - apply IH, Hp.
Qed.

(** In a browser [checkAuth] sets [loading] and goes on with a program
    that closes. *)
Lemma checkAuth_job env :
  window_defined env = true ->
  exists rest,
    tame true false rest /\
    forall w, job env (checkAuth true) w = job env rest (set_loading true w).
Proof.
  intro Hwin. eexists. split; cycle 1.
  - intro w. unfold checkAuth.
    cbn [job bind call interp fst snd settle]. rewrite Hwin.
    cbn [negb orb job bind call interp fst snd settle]. reflexivity.
  - apply tame_finally_clears. repeat quiet_step.
    apply quiet_refreshUser.
Qed.

(** *** Parked tasks *)

Lemma closing_task_stable w w' t :
  stable w w' -> closing_task w t -> closing_task w' t.
Proof.
  intros [_ Hl] (cleared & Ht & Hc). exists cleared. split; [exact Ht|auto].
Qed.

Lemma task_ok_stable d w w' t :
  stable w w' -> task_ok d w t -> task_ok d w' t.
Proof.
  intros Hst [Hq|[Hd Hc]]; [left; exact Hq|right].
  split; [exact Hd|eapply closing_task_stable; eauto].
Qed.

Lemma Forall_remove_nth A (P : A -> Prop) l : forall i,
  Forall P l -> Forall P (remove_nth i l).
Proof.
  induction l as [|a l IH]; intros i H; [destruct i; constructor|].
  inversion H; subst. destruct i; cbn; [assumption|].
  constructor; auto.
Qed.

Lemma Exists_remove_nth A (P : A -> Prop) l : forall i t,
  nth_error l i = Some t -> Exists P l -> P t \/ Exists P (remove_nth i l).
Proof.
  induction l as [|a l IH]; intros i t Hn He; [inversion He|].
  destruct i as [|i]; cbn in *.
  - injection Hn as ->. inversion He; subst; auto.
  - inversion He; subst.
    + right. constructor. assumption.
    + destruct (IH i t Hn H0) as [Ht|Hr]; [left; exact Ht|right].
      apply Exists_cons_tl. exact Hr.
Qed.

Lemma Forall_nth_error A (P : A -> Prop) l i t :
  Forall P l -> nth_error l i = Some t -> P t.
Proof.
  intros H Hn. rewrite Forall_forall in H. apply H.
  eapply nth_error_In; eauto.
Qed.

(** Spawning a tame program keeps the tasks in order. *)
Lemma spawn_keeps env closing cleared p w ts d :
  tame closing cleared p ->
  (cleared = true -> loading w = false) ->
  (closing = true -> d = true) ->
  Forall (task_ok d w) ts ->
  let s' := spawn env p (mkSys w ts (Some d)) in
  auth_effect_deps s' = Some d /\
  stable w (world s') /\
  Forall (task_ok d (world s')) (tasks s') /\
  (closing = true ->
   loading (world s') = false \/ Exists (closing_task (world s')) (tasks s')) /\
  (Exists (closing_task w) ts -> Exists (closing_task (world s')) (tasks s')).
Proof.
  intros Ht Hc Hd Hts. cbv zeta. unfold spawn. cbn [world tasks auth_effect_deps].
  pose proof (tame_job env closing unit p cleared w Ht Hc) as Hj.
  assert (Hnew : forall w' t,
    stable w w' ->
    (exists cleared', (cleared' = true -> loading w' = false) /\
                      task_tame closing cleared' t) ->
    Forall (task_ok d w') (ts ++ [t]) /\
    (closing = true -> loading w' = false \/ Exists (closing_task w') (ts ++ [t])) /\
    (Exists (closing_task w) ts -> Exists (closing_task w') (ts ++ [t]))).
  { intros w' t Hst (cleared' & Hc' & Ht').
    split; [|split].
    - apply Forall_app. split.
      + eapply Forall_impl; [|exact Hts]. intros t0. apply task_ok_stable, Hst.
      + constructor; [|constructor].
        destruct closing.
        * right. split; [auto|]. exists cleared'. auto.
        * left. destruct t; cbn [task_tame] in *;
            try intro r; eapply tame_any; eauto.
    - intros ->. right. apply Exists_app. right. constructor.
      exists cleared'. auto.
    - intro He. apply Exists_app. left.
      eapply Exists_impl; [|exact He]. intros t0. apply closing_task_stable, Hst. }
  destruct (job env p w) as [r w'|req k w'|c k w'|k w'];
    cbn [world tasks auth_effect_deps]; (split; [reflexivity|]).
  - destruct Hj as [Hst Hcl]. split; [exact Hst|]. split; [|split].
    + eapply Forall_impl; [|exact Hts]. intros t0. apply task_ok_stable, Hst.
    + intro H. left. auto.
    + intro He. eapply Exists_impl; [|exact He].
      intros t0. apply closing_task_stable, Hst.
  - destruct Hj as [Hst Hk]. split; [exact Hst|]. apply Hnew; [exact Hst|].
    destruct Hk as (c' & Hc' & Hk). exists c'. auto.
  - destruct Hj as [Hst Hk]. split; [exact Hst|]. apply Hnew; [exact Hst|].
    destruct Hk as (c' & Hc' & Hk). exists c'. auto.
  - destruct Hj as [Hst Hk]. split; [exact Hst|]. apply Hnew; [exact Hst|].
    destruct Hk as (c' & Hc' & Hk). exists c'. auto.
Qed.

(** *** The system *)

Lemma loading_inv_spawn env w0 p w ts d :
  loading_inv w0 (mkSys w ts (Some d)) ->
  tame false false p ->
  let s' := spawn env p (mkSys w ts (Some d)) in
  loading_inv w0 s' /\ auth_effect_deps s' = Some d /\
  (loading w = false -> loading (world s') = false).
Proof.
  intros (Hm & Hts & Hcl) Hp. cbn [world tasks] in *.
  destruct (spawn_keeps env false false p w ts d Hp)
    as (Hd & Hst & Hts' & _ & Hex); [discriminate|discriminate|exact Hts|].
  cbv zeta. unfold loading_inv. rewrite Hd.
  split; [|split; [reflexivity|apply Hst]].
  split; [destruct Hst; congruence|]. split; [exact Hts'|].
  intro Hdt. destruct (Hcl Hdt) as [Hl|He];
    [left; apply Hst, Hl|right; apply Hex, He].
Qed.

Lemma loading_inv_stable w0 w w' ts d :
  loading_inv w0 (mkSys w ts (Some d)) -> stable w w' ->
  loading_inv w0 (mkSys w' ts (Some d)).
Proof.
  intros (Hm & Hts & Hcl) Hst. unfold loading_inv. cbn [world tasks auth_effect_deps] in *.
  split; [destruct Hst; congruence|]. split.
  - eapply Forall_impl; [|exact Hts]. intros t. apply task_ok_stable, Hst.
  - intro Hd. destruct (Hcl Hd) as [Hl|He]; [left; apply Hst, Hl|right].
    eapply Exists_impl; [|exact He]. intros t. apply closing_task_stable, Hst.
Qed.

(** Resuming a parked task. *)
Lemma loading_inv_resume env w0 w ts d i t p :
  loading_inv w0 (mkSys w ts (Some d)) ->
  nth_error ts i = Some t ->
  (forall closing cleared, task_tame closing cleared t -> tame closing cleared p) ->
  let s' := spawn env p (mkSys w (remove_nth i ts) (Some d)) in
  loading_inv w0 s' /\ auth_effect_deps s' = Some d /\
  (loading w = false -> loading (world s') = false).
Proof.
  intros (Hm & Hts & Hcl) Hn Hp. cbn [world tasks auth_effect_deps] in *.
  pose proof (Forall_nth_error _ _ _ _ _ Hts Hn) as Hok.
  pose proof (Forall_remove_nth _ _ ts i Hts) as Hrest.
  assert (Hcase : (d = true /\ closing_task w t) \/
                  (task_tame false false t /\
                   (d = true -> loading w = false \/
                                Exists (closing_task w) (remove_nth i ts)))).
  { destruct Hok as [Hq|[Hd Hc]]; [|left; auto].
    destruct d; [|right; split; [exact Hq|discriminate]].
    destruct (Hcl eq_refl) as [Hl|He]; [right; split; auto|].
    destruct (Exists_remove_nth _ _ ts i t Hn He) as [Hc|Hr];
      [left; auto|right; split; auto]. }
  cbv zeta. unfold loading_inv.
  destruct Hcase as [[Hd (cleared & Ht & Hc)]|[Hq Hcl']].
  - destruct (spawn_keeps env true cleared p w (remove_nth i ts) d
                (Hp _ _ Ht) Hc (fun _ => Hd) Hrest)
      as (Hd' & Hst & Hts' & Hclose & _).
    rewrite Hd'. split; [|split; [reflexivity|apply Hst]].
    split; [destruct Hst; congruence|]. split; [exact Hts'|].
    intros _. apply Hclose. reflexivity.
  - destruct (spawn_keeps env false false p w (remove_nth i ts) d (Hp _ _ Hq))
      as (Hd' & Hst & Hts' & _ & Hex); [discriminate|discriminate|exact Hrest|].
    rewrite Hd'. split; [|split; [reflexivity|apply Hst]].
    split; [destruct Hst; congruence|]. split; [exact Hts'|].
    intro Hdt. destruct (Hcl' Hdt) as [Hl|He];
      [left; apply Hst, Hl|right; apply Hex, He].
Qed.

(** What [spawn] leaves does not depend on the recorded dependency. *)
Lemma spawn_deps env p w ts a b :
  world (spawn env p (mkSys w ts a)) = world (spawn env p (mkSys w ts b)) /\
  tasks (spawn env p (mkSys w ts a)) = tasks (spawn env p (mkSys w ts b)).
Proof.
  unfold spawn. cbn [world tasks auth_effect_deps].
  destruct (job env p w); cbn; auto.
Qed.

(** Every event keeps the invariant; and once the [mounted] effect has run
    [checkAuth], it does not run again and [loading], once [false], stays
    [false]. *)
Lemma dispatch_keeps env w0 ev s s' :
  window_defined env = true ->
  loading_inv w0 s ->
  dispatch env ev s = Some s' ->
  loading_inv w0 s' /\
  (auth_effect_deps s = Some true ->
   auth_effect_deps s' = Some true /\
   (loading (world s) = false -> loading (world s') = false)).
Proof.
  intros Hwin Hinv Hd.
  destruct s as [w ts [d|]].
  - (* after the first commit *)
    assert (Hm : mounted w = true) by apply Hinv.
    assert (Hgo : forall s1,
              loading_inv w0 s1 /\ auth_effect_deps s1 = Some d /\
              (loading w = false -> loading (world s1) = false) ->
              loading_inv w0 s1 /\
              (Some d = Some true ->
               auth_effect_deps s1 = Some true /\
               (loading w = false -> loading (world s1) = false))).
    { intros s1 (H1 & H2 & H3). split; [exact H1|].
      intro Hdt. split; [congruence|exact H3]. }
    destruct ev; unfold dispatch in Hd; cbn [world tasks auth_effect_deps] in Hd;
      try discriminate Hd.
    + (* the [mounted] effect *)
      rewrite Hm in Hd. destruct d; [discriminate|].
      cbn [Bool.eqb authEffect] in Hd. injection Hd as <-.
      cbn [world tasks auth_effect_deps].
      split; [|discriminate].
      destruct (checkAuth_job env Hwin) as (rest & Hrest & Hjob).
      destruct (spawn_deps env (checkAuth true) w ts (Some false) (Some true))
        as [-> ->].
      assert (Hsp : spawn env (checkAuth true) (mkSys w ts (Some true))
                    = spawn env rest (mkSys (set_loading true w) ts (Some true))).
      { unfold spawn. cbn [world tasks auth_effect_deps]. rewrite Hjob.
        reflexivity. }
      rewrite Hsp.
      destruct Hinv as (_ & Hts & _). cbn [world tasks] in Hts.
      destruct (spawn_keeps env true false rest (set_loading true w) ts true Hrest)
        as (_ & Hst & Hts' & Hclose & _); [discriminate|reflexivity| |].
      { eapply Forall_impl; [|exact Hts].
        intros t [Hq|[Hf _]]; [left; exact Hq|discriminate]. }
      unfold loading_inv. cbn [world tasks auth_effect_deps].
      split; [destruct Hst as [Hm' _]; rewrite Hm'; exact Hm|].
      split; [exact Hts'|]. intros _. apply Hclose. reflexivity.
    + rewrite Hm in Hd. injection Hd as <-.
      apply Hgo, loading_inv_spawn; [exact Hinv|].
      apply quiet_detach, quiet_login.
    + rewrite Hm in Hd. injection Hd as <-.
      apply Hgo, loading_inv_spawn; [exact Hinv|].
      apply quiet_detach, quiet_logout.
    + rewrite Hm in Hd. injection Hd as <-.
      apply Hgo, loading_inv_spawn; [exact Hinv|apply quiet_refreshUser].
    + destruct (countdown_armed env w); [|discriminate]. injection Hd as <-.
      apply Hgo, loading_inv_spawn; [exact Hinv|].
      unfold handleSessionTimeout. apply quiet_bind; [apply quiet_logout|].
      intro. apply quiet_ret.
    + destruct (nth_error ts i) as [[req k|c k|k]|] eqn:Hn; try discriminate.
      injection Hd as <-.
      apply Hgo, (loading_inv_resume env w0 w ts d i _ _ Hinv Hn).
      intros closing cleared Ht. apply Ht.
    + destruct (nth_error ts i) as [[req k|c k|k]|] eqn:Hn; try discriminate.
      injection Hd as <-.
      apply Hgo, (loading_inv_resume env w0 w ts d i _ _ Hinv Hn).
      intros closing cleared Ht. apply Ht.
    + destruct (nth_error ts i) as [[req k|c k|k]|] eqn:Hn; try discriminate.
      injection Hd as <-.
      apply Hgo, (loading_inv_resume env w0 w ts d i _ _ Hinv Hn).
      intros closing cleared Ht. apply Ht.
    + destruct (nth_error (timers w) i) as [[cb ms]|] eqn:Hn; [|discriminate].
      injection Hd as <-.
      apply Hgo.
      apply (loading_inv_spawn env w0 (timer_body cb)
               (set_timers (remove_nth i (timers w)) w) ts d).
      * eapply loading_inv_stable; [exact Hinv|]. split; cbn; auto.
      * apply quiet_timer_body.
  - (* before the first commit *)
    unfold loading_inv in Hinv. cbn [auth_effect_deps] in Hinv.
    unfold boot in Hinv. injection Hinv as -> ->.
    split; [|discriminate].
    destruct ev; unfold dispatch in Hd; cbn [world tasks auth_effect_deps] in Hd;
      try discriminate Hd.
    + injection Hd as <-. unfold loading_inv. cbn. auto.
    + rewrite (no_user_not_armed env (page_load w0) eq_refl) in Hd. discriminate.
    + destruct i; discriminate.
    + destruct i; discriminate.
    + destruct i; discriminate.
    + cbn in Hd. destruct i; discriminate.
Qed.

Lemma run_events_keep env w0 evs : forall s s',
  window_defined env = true ->
  loading_inv w0 s ->
  run_events env evs s = Some s' ->
  loading_inv w0 s' /\
  (auth_effect_deps s = Some true ->
   auth_effect_deps s' = Some true /\
   (loading (world s) = false -> loading (world s') = false)).
Proof.
  induction evs as [|ev evs IH]; intros s s' Hwin Hinv Hrun;
    cbn [run_events] in Hrun.
  - injection Hrun as <-. auto.
  - destruct (dispatch env ev s) as [s1|] eqn:Hd; [|discriminate].
    destruct (dispatch_keeps env w0 ev s s1 Hwin Hinv Hd) as [Hinv1 Hp1].
    destruct (IH s1 s' Hwin Hinv1 Hrun) as [Hinv' Hp'].
    split; [exact Hinv'|]. intro Hdt.
    destruct (Hp1 Hdt) as [Hd1 Hl1]. destruct (Hp' Hd1) as [Hd' Hl'].
    split; [exact Hd'|auto].
Qed.

(** C7, as the code has it.  In a browser, the mount-time reconciliation
    always completes with [loading] false, whatever the network answers;
    whatever else happens meanwhile (logins, logouts, refreshes, timeouts,
    timers, answers of the network, in any order), [loading] is false
    whenever the [mounted] effect has run and nothing is pending; and from
    the moment [loading] is false after that effect, it stays false for
    ever, so that a countdown armed from then on is armed with [loading]
    false.  The countdown itself is armed by [!!user] alone, whatever
    [loading] is: nothing orders the arming after the end of the
    reconciliation. *)
Theorem loading_settles_and_stays_false env w0 :
  window_defined env = true ->
  (forall net,
     loading (snd (run env net (checkAuth true)
                     (set_mounted true (page_load w0)))) = false) /\
  (forall evs s,
     run_events env evs (boot w0) = Some s ->
     auth_effect_deps s = Some true -> tasks s = [] ->
     loading (world s) = false) /\
  (forall evs1 s1 evs2 s2,
     run_events env evs1 (boot w0) = Some s1 ->
     auth_effect_deps s1 = Some true -> loading (world s1) = false ->
     run_events env evs2 s1 = Some s2 ->
     auth_effect_deps s2 = Some true /\ loading (world s2) = false) /\
  (faults env CGetRememberMe = None ->
   forall w, countdown_armed env w = truthy_user (user w)).
Proof.
  intro Hwin.
  assert (Hboot : loading_inv w0 (boot w0)) by reflexivity.
  split; [|split; [|split; [|intros Hf w; apply armed_by_user, Hf]]].
  - intro net.
    apply wp_run with (Q := fun _ w' => loading w' = false).
    apply wp_mono with (Q := fun _ w' =>
      loading w' = false /\ mounted w' = mounted (set_mounted true (page_load w0))).
    + intros r w' [Hl _]. exact Hl.
    + apply checkAuth_wp. exact Hwin.
  - intros evs s Hrun Hd Ht.
    destruct (run_events_keep env w0 evs _ _ Hwin Hboot Hrun) as [Hinv _].
    unfold loading_inv in Hinv. rewrite Hd, Ht in Hinv.
    destruct Hinv as (_ & _ & [Hl|He]); [reflexivity|exact Hl|inversion He].
  - intros evs1 s1 evs2 s2 Hrun1 Hd Hl Hrun2.
    destruct (run_events_keep env w0 evs1 _ _ Hwin Hboot Hrun1) as [Hinv1 _].
    destruct (run_events_keep env w0 evs2 _ _ Hwin Hinv1 Hrun2) as [_ Hp].
    destruct (Hp Hd) as [Hd2 Hl2]. auto.
Qed.

Lemma loading_settles_and_stays_false_witness :
  let w0 := Sample.mounted_page (Some "tok") false (Some Sample.alice) in
  let mount := [EvFirstCommit; EvAuthEffect; EvContinues 0] in
  let sign_in := [EvLogout; EvFetchSettles 0 (inl (Error "Failed to fetch"));
                  EvLogin "alice@test" "pw" None;
                  EvLoginSettles 0 (inr (mkLoginData (Some Sample.alice) "tok2"))] in
  exists s1 s2,
    run_events Sample.browser mount (boot w0) = Some s1 /\
    run_events Sample.browser sign_in s1 = Some s2 /\
    loading (world s1) = false /\
    countdown_armed Sample.browser (world s2) = true /\
    loading (world s2) = false.
Proof.
  cbv zeta. do 2 eexists.
  split; [vm_compute; reflexivity|]. split; [vm_compute; reflexivity|].
  split; [reflexivity|]. split; [reflexivity|].
  destruct (loading_settles_and_stays_false Sample.browser
              (Sample.mounted_page (Some "tok") false (Some Sample.alice))
              eq_refl) as (_ & _ & Hstays & _).
  refine (proj2 (Hstays [EvFirstCommit; EvAuthEffect; EvContinues 0] _
                   [EvLogout; EvFetchSettles 0 (inl (Error "Failed to fetch"));
                    EvLogin "alice@test" "pw" None;
                    EvLoginSettles 0 (inr (mkLoginData (Some Sample.alice) "tok2"))]
                   _ _ _ _ _)); reflexivity.
Defined.

(** C7, as stated, fails: the arming input of the hook is [!!user] alone.
    A token without a cached user makes the reconciliation wait for the
    identity fetch; a login that the Identity Client accepts meanwhile sets
    the user, and the next render sees the countdown armed with [loading]
    still true and the identity fetch still pending. *)
Lemma login_during_reconciliation_arms_while_loading :
  let evs := [EvFirstCommit; EvAuthEffect;
              EvLogin "alice@test" "pw" None;
              EvLoginSettles 1 (inr (mkLoginData (Some Sample.alice) "tok2"))] in
  option_map
    (fun s => (countdown_armed Sample.browser (world s), loading (world s),
               length (tasks s)))
    (run_events Sample.browser evs
       (boot (Sample.mounted_page (Some "tok") false None)))
  = Some (true, true, 1%nat).
Proof. vm_compute. reflexivity. Qed.

(** The reconciliation does the same on its own.  With a token and a
    cached user, [refreshUser] sets the user in the job of the [mounted]
    effect, and [checkAuth] sets [loading] to false only in the job that
    follows its [await refreshUser()]: a render committed between the two
    sees the countdown armed with [loading] still true. *)
Lemma cached_user_arms_before_loading_clears :
  let w0 := Sample.mounted_page (Some "tok") false (Some Sample.alice) in
  option_map
    (fun s => (countdown_armed Sample.browser (world s), loading (world s),
               length (tasks s)))
    (run_events Sample.browser [EvFirstCommit; EvAuthEffect] (boot w0))
  = Some (true, true, 1%nat) /\
  option_map
    (fun s => (countdown_armed Sample.browser (world s), loading (world s),
               length (tasks s)))
    (run_events Sample.browser [EvFirstCommit; EvAuthEffect; EvContinues 0]
       (boot w0))
  = Some (true, false, 0%nat).
Proof. vm_compute. split; reflexivity. Qed.

(** C8.  In a browser, when the Token Store holds no token at mount, the
    first commit and the [mounted] effect settle the session Anonymous:
    user [null], [loading] false, nothing pending; and in every execution of
    the reconciliation on its own no render ever sees the countdown
    armed. *)
Theorem no_token_settles_anonymous env w0 :
  window_defined env = true ->
  truthy_opt_string (token w0) = false ->
  (exists s,
     run_events env [EvFirstCommit; EvAuthEffect] (boot w0) = Some s /\
     user (world s) = None /\ loading (world s) = false /\ tasks s = []) /\
  (forall evs s,
     forallb mount_event evs = true ->
     run_events env evs (boot w0) = Some s ->
     countdown_armed env (world s) = false /\
     user (world s) = None /\ tasks s = [] /\
     (auth_effect_deps s = Some true -> loading (world s) = false)).
Proof.
  intros Hwin Htok.
  assert (Hall : forall evs s,
     forallb mount_event evs = true ->
     run_events env evs (boot w0) = Some s ->
     countdown_armed env (world s) = false /\
     user (world s) = None /\ tasks s = [] /\
     (auth_effect_deps s = Some true -> loading (world s) = false)).
  { intros evs s Hevs Hrun.
    assert (Hinv : mount_inv env
                     (fun w => user w = None /\ truthy_opt_string (token w) = false)
                     (fun _ => False)
                     (fun w => user w = None /\ loading w = false /\ mounted w = true)
                     s).
    { apply (mount_inv_run env
               (fun w => user w = None /\ truthy_opt_string (token w) = false)
               (fun _ => False)
               (fun w => user w = None /\ loading w = false /\ mounted w = true))
        with (evs := evs) (s := boot w0).
      - intros w Hpre. exact Hpre.
      - intros w [Hu Ht] Hm.
        apply wp_mono with (Q := fun _ w' =>
          user w' = None /\ loading w' = false /\ mounted w' = mounted w).
        + intros r w' (Hu' & Hl & Hm'). repeat split; congruence.
        + apply checkAuth_without_token; assumption.
      - intros w [].
      - intros w (_ & _ & Hm). exact Hm.
      - exact Hevs.
      - apply mount_inv_boot. split; [reflexivity|exact Htok].
      - exact Hrun. }
    unfold mount_inv in Hinv.
    destruct (auth_effect_deps s) as [[|]|].
    - destruct (tasks s) as [|t [|t' ts]].
      + destruct Hinv as (Hu & Hl & _).
        split; [apply no_user_not_armed, Hu|]. auto.
      + destruct Hinv as [[] _].
      + destruct Hinv.
    - destruct Hinv as ((Hu & _) & _ & Ht).
      split; [apply no_user_not_armed, Hu|].
      repeat split; auto. discriminate.
    - destruct Hinv as ((Hu & _) & _ & Ht).
      split; [apply no_user_not_armed, Hu|].
      repeat split; auto. discriminate. }
  split; [|exact Hall].
  destruct (run_events env [EvFirstCommit; EvAuthEffect] (boot w0)) as [s|] eqn:Hrun.
  - exists s. split; [reflexivity|].
    destruct (Hall [EvFirstCommit; EvAuthEffect] s eq_refl Hrun) as (_ & Hu & Ht & Hl).
    repeat split; auto. apply Hl.
    cbn in Hrun. injection Hrun as <-. reflexivity.
  - cbn in Hrun. discriminate.
Qed.

Lemma no_token_settles_anonymous_witness :
  let w0 := Sample.mounted_page None false None in
  (exists s,
     run_events Sample.browser [EvFirstCommit; EvAuthEffect] (boot w0) = Some s /\
     user (world s) = None /\ loading (world s) = false /\ tasks s = []) /\
  (forall evs s,
     forallb mount_event evs = true ->
     run_events Sample.browser evs (boot w0) = Some s ->
     countdown_armed Sample.browser (world s) = false /\
     user (world s) = None /\ tasks s = [] /\
     (auth_effect_deps s = Some true -> loading (world s) = false)).
Proof.
  apply (no_token_settles_anonymous Sample.browser
           (Sample.mounted_page None false None)); reflexivity.
Defined.

(** ** More of the session operations *)

(** X1.  [refreshUser] never rejects, whatever the collaborators throw and
    whatever the network answers (its one [try] covers the whole body and
    the [catch] cannot throw); and it never touches [loading] or
    [mounted]. *)
Theorem refreshUser_never_throws env net w :
  let r := run env net refreshUser w in
  fst r = inr tt /\ loading (snd r) = loading w /\ mounted (snd r) = mounted w.
Proof.
  apply wp_run with (Q := fun r w' =>
    r = inr tt /\ loading w' = loading w /\ mounted w' = mounted w).
  unfold refreshUser. wp_go; try (repeat split; reflexivity).
  apply wp_fetch; [exact I|intros r _].
  destruct r as [err|resp]; wp_go; try (repeat split; reflexivity).
  apply logout_wp.
  - intros; exact I.
  - intros w' _ (_ & _ & _ & _ & _ & Hl & Hm & _). wp_go. auto.
  - intros w' _ Hl Hm _. wp_go. auto.
Qed.

(** X2.  In a browser, without a token [refreshUser] ends in its first
    turn with the current user [null]: nothing is asked of the network, the
    store (token and cached user record) is left as it is, and no route is
    pushed. *)
Theorem refreshUser_without_token env w :
  window_defined env = true ->
  truthy_opt_string (token w) = false ->
  exists w',
    exec env refreshUser w = Finished (inr tt) w' /\
    user w' = None /\ requests w' = requests w /\
    token w' = token w /\ cached_user w' = cached_user w /\
    pushes w' = pushes w.
Proof.
  intros Hwin Htok.
  destruct (wp_finishes env unit refreshUser w (fun r w' =>
      r = inr tt /\ user w' = None /\ requests w' = requests w /\
      token w' = token w /\ cached_user w' = cached_user w /\
      pushes w' = pushes w)) as (r & w' & He & -> & H).
  - unfold refreshUser. wp_go; repeat split; reflexivity.
  - exists w'. auto.
Qed.

(** X3.  In a browser, with no cached user, when the stored user id is
    missing, empty, unparsable or falsy, or the API address is not
    configured, [refreshUser] ends in its first turn with the current user
    [null] and no request sent; the token stays in the store. *)
Theorem refreshUser_without_identity_key env w :
  window_defined env = true ->
  cached_user w = None ->
  identity_key_missing env w = true ->
  exists w',
    exec env refreshUser w = Finished (inr tt) w' /\
    user w' = None /\ requests w' = requests w /\
    token w' = token w /\ cached_user w' = None /\ pushes w' = pushes w.
Proof.
  intros Hwin Hcu Hkey.
  destruct (wp_finishes env unit refreshUser w (fun r w' =>
      r = inr tt /\ user w' = None /\ requests w' = requests w /\
      token w' = token w /\ cached_user w' = None /\ pushes w' = pushes w))
    as (r & w' & He & -> & H).
  - unfold refreshUser. wp_go; try (repeat split; auto; fail).
    all: exfalso; revert Hkey; unfold identity_key_missing, stored_user_id.
    all: repeat match goal with H : _ = _ |- _ => progress (rewrite H) end.
    all: discriminate.
  - exists w'. auto.
Qed.

(** X4.  When [refreshUser] goes to the network and the answer is [ok],
    is not a 401 and holds a first [details] entry, that entry becomes the
    current user and nothing else changes after the request: in particular
    the fetched user is not written to the store. *)
Theorem refreshUser_adopts_fetched_user env net w req k w1 resp d u :
  exec env refreshUser w = AwaitFetch req k w1 ->
  fetch_reply net req = inr resp ->
  (status resp =? 401) = false -> ok resp = true ->
  json resp = inr d -> first_detail d = Some u ->
  run env net refreshUser w = (inr tt, set_user (Some u) w1) /\
  w1 = sent req w.
Proof.
  intros Hexec Hreply Hst Hok Hjson Hd.
  apply refreshUser_awaits in Hexec.
  destruct Hexec as (uid & R & Hreq & ->). split; [|reflexivity].
  assert (H : fst (run env net refreshUser w) = inr tt /\
              snd (run env net refreshUser w) = set_user (Some u) (sent req w)).
  { apply wp_run with (Q := fun r w' =>
      r = inr tt /\ w' = set_user (Some u) (sent req w)).
    to_fetch R. rewrite <- Hreq.
    apply wp_fetch; [exact I|intros r Hr; cbn in Hr; subst r; rewrite Hreply].
    wp_straight. rewrite ?Hd. auto. }
  destruct (run env net refreshUser w) as [r w']. cbn in H.
  destruct H as [-> ->]. reflexivity.
Qed.

(** X5.  When the Identity Client accepts the credentials (and neither
    persisting them nor reading the expiration throws), [login] resolves
    after one request with
    the credentials it was given, the current user is [data.user],
    [tokenInfo] is the expiration the store reports, and one timer of 100
    ms is set for the redirect; no route is pushed yet and [loading] is not
    touched. *)
Theorem login_success env net w e p rm d :
  login_reply net (mkCredentials e p (default_false rm)) = inr d ->
  faults env CPersistLogin = None ->
  faults env CGetTokenExpirationInfo = None ->
  let r := run env net (login e p rm) w in
  fst r = inr tt /\
  logins (snd r) = (logins w ++ [mkCredentials e p (default_false rm)])%list /\
  user (snd r) = data_user d /\
  tokenInfo (snd r) = expiration (snd r) /\
  timers (snd r) = (timers w ++ [(RedirectByRole (data_user d), 100)])%list /\
  pushes (snd r) = pushes w /\
  loading (snd r) = loading w.
Proof.
  intros Hrep Hf1 Hf2 r; subst r.
  apply wp_run with (Q := fun r w' =>
    r = inr tt /\
    logins w' = (logins w ++ [mkCredentials e p (default_false rm)])%list /\
    user w' = data_user d /\
    tokenInfo w' = expiration w' /\
    timers w' = (timers w ++ [(RedirectByRole (data_user d), 100)])%list /\
    pushes w' = pushes w /\ loading w' = loading w).
  unfold login, default_false in *. wp_straight. unfold loginUser.
  apply wp_login_request; [exact I|intros r Hr; cbn in Hr; subst r].
  rewrite Hrep. wp_straight. auto 12.
Qed.

(** X6.  [login] is not atomic: when the Identity Client accepts the
    credentials but [getTokenExpirationInfo] throws, [login] rejects with
    that error although the current user is already [data.user]; the token
    information is left as it was and no redirect is scheduled. *)
Theorem login_failing_after_sign_in env net w e p rm d err :
  login_reply net (mkCredentials e p (default_false rm)) = inr d ->
  faults env CPersistLogin = None ->
  faults env CGetTokenExpirationInfo = Some err ->
  let r := run env net (login e p rm) w in
  fst r = inl err /\
  user (snd r) = data_user d /\
  tokenInfo (snd r) = tokenInfo w /\
  timers (snd r) = timers w /\ pushes (snd r) = pushes w.
Proof.
  intros Hrep Hf1 Hf2 r; subst r.
  apply wp_run with (Q := fun r w' =>
    r = inl err /\ user w' = data_user d /\ tokenInfo w' = tokenInfo w /\
    timers w' = timers w /\ pushes w' = pushes w).
  unfold login, default_false in *. wp_straight. unfold loginUser.
  apply wp_login_request; [exact I|intros r Hr; cbn in Hr; subst r].
  rewrite Hrep. wp_straight. auto 12.
Qed.

Lemma logout_exec_without_token env w :
  truthy_opt_string (token w) = false ->
  local_cleanup_throws env = false ->
  exec env logout w =
    Finished (inr true)
      (set_pushes (pushes w ++ ["/login"])
         (set_tokenInfo None
            (set_user None (set_cached_user None (set_token None w))))).
Proof.
  intros Htok Hc.
  apply no_cleanup_faults in Hc. destruct Hc as (F1 & F2 & F3 & F4).
  apply wp_finishes_eq. unfold logout. wp_straight. auto.
Qed.

(** X8.  A second [logout] after a first one sends no notification: it
    finds no token, ends in its first turn with [true], leaves the store
    empty and pushes [/login] once more. *)
Theorem logout_twice env net w :
  local_cleanup_throws env = false ->
  let w1 := snd (run env net logout w) in
  exists w2,
    exec env logout w1 = Finished (inr true) w2 /\
    requests w2 = requests w1 /\
    token w2 = None /\ cached_user w2 = None /\ user w2 = None /\
    pushes w2 = (pushes w ++ ["/login"; "/login"])%list.
Proof.
  intros Hc w1.
  destruct (logout_outcome env net w) as (_ & _ & Hclean).
  destruct (Hclean Hc) as (_ & Ht & Hcu & Hu & _ & Hp & _).
  fold w1 in Ht, Hcu, Hu, Hp.
  eexists. split.
  - apply logout_exec_without_token; [rewrite Ht; reflexivity|exact Hc].
  - cbn. rewrite Hp, <- app_assoc. auto.
Qed.


Lemma wp_do env F R X (c : Call X) (k : result X -> Prog R) w Q :
  wp env F (k (fst (interp env c w))) (snd (interp env c w)) Q ->
  wp env F (Do c k) w Q.
Proof. intro H. exact H. Qed.

Ltac wp_raw :=
  lazymatch goal with
  | |- wp _ _ (Do _ _) _ _ => apply wp_do
  end.

Ltac wp_resume := repeat first [ wp_rule | wp_raw | progress wp_simpl | wp_known ].

(** The first job of [login], and what its continuation does with an
    accepted sign-in. *)
Lemma login_turns env e p rm w d :
  faults env CPersistLogin = None ->
  faults env CGetTokenExpirationInfo = None ->
  exists k w1 w2,
    job env (detach (login e p rm)) w
      = JobLogin (mkCredentials e p (default_false rm)) k w1 /\
    job env (k (inr d)) w1 = JobDone (inr tt) w2 /\
    user w2 = data_user d /\ pushes w2 = pushes w /\
    timers w2 = (timers w ++ [(RedirectByRole (data_user d), 100)])%list /\
    mounted w2 = mounted w.
Proof.
  intros F1 F2. do 3 eexists. split.
  { unfold detach, login, loginUser.
    cbn [job bind try_catch call interp fst snd settle]. reflexivity. }
  split.
  - apply wp_done_eq. cbv beta iota. wp_resume. split; reflexivity.
  - cbn. auto.
Qed.

Lemma redirect_turn env u w :
  faults env CRouterPush = None ->
  exists w',
    job env (timer_body (RedirectByRole u)) w = JobDone (inr tt) w' /\
    pushes w' = (pushes w ++ [if is_admin u then "/admin" else "/dashboard"])%list /\
    user w' = user w /\ timers w' = timers w.
Proof.
  intro F3. unfold timer_body.
  destruct (is_admin u); eexists; (split; [apply wp_done_eq; wp_straight;
    split; reflexivity|]); cbn; auto.
Qed.

(** X7.  A login from the mounted component with nothing pending, its
    acceptance and the timer it set, taken as three event-loop turns: the
    current user is [data.user], and exactly one route is pushed, [/admin]
    when [data.user.user_role] is ["admin"] and [/dashboard] otherwise (also
    when [data.user] is missing); no timer or task is left. *)
Theorem login_then_redirect env s e p rm d :
  mounted (world s) = true -> tasks s = [] -> timers (world s) = [] ->
  faults env CPersistLogin = None ->
  faults env CGetTokenExpirationInfo = None ->
  faults env CRouterPush = None ->
  exists s',
    run_events env [EvLogin e p rm; EvLoginSettles 0 (inr d); EvTimerFires 0] s
      = Some s' /\
    user (world s') = data_user d /\
    pushes (world s') =
      (pushes (world s) ++
       [if is_admin (data_user d) then "/admin" else "/dashboard"])%list /\
    timers (world s') = [] /\ tasks s' = [].
Proof.
  intros Hm Ht Htm F1 F2 F3.
  destruct s as [w ts deps]. cbn [world tasks] in *. subst ts.
  destruct (login_turns env e p rm w d F1 F2)
    as (k & w1 & w2 & He1 & He2 & Hu & Hp & Htm2 & _).
  rewrite Htm in Htm2. cbn [app] in Htm2.
  destruct (redirect_turn env (data_user d) (set_timers [] w2) F3)
    as (w3 & He3 & Hp3 & Hu3 & Htm3).
  assert (D1 : dispatch env (EvLogin e p rm) (mkSys w [] deps)
               = Some (mkSys w1 [LoginTask (mkCredentials e p (default_false rm)) k] deps)).
  { unfold dispatch, spawn. cbn [world tasks auth_effect_deps].
    rewrite Hm, He1. reflexivity. }
  assert (D2 : dispatch env (EvLoginSettles 0 (inr d))
                 (mkSys w1 [LoginTask (mkCredentials e p (default_false rm)) k] deps)
               = Some (mkSys w2 [] deps)).
  { unfold dispatch, spawn.
    cbn [world tasks auth_effect_deps nth_error remove_nth].
    rewrite He2. reflexivity. }
  assert (D3 : dispatch env (EvTimerFires 0) (mkSys w2 [] deps)
               = Some (mkSys w3 [] deps)).
  { unfold dispatch, spawn. cbn [world tasks auth_effect_deps].
    rewrite Htm2. cbn [nth_error remove_nth world tasks auth_effect_deps].
    rewrite He3. reflexivity. }
  exists (mkSys w3 [] deps).
  cbn [run_events]. rewrite D1, D2, D3.
  cbn [world tasks].
  split; [reflexivity|].
  rewrite Hu3, Hp3, Htm3. cbn [set_timers user pushes timers]. rewrite Hp. auto.
Qed.

(** The two jobs of a session timeout with a token: the notification is
    sent, and whatever comes back the local cleanup is done. *)
Lemma timeout_turns env w t :
  token w = Some t -> truthy_string t = true ->
  local_cleanup_throws env = false ->
  exists k,
    job env handleSessionTimeout w
      = JobFetch (ReqLogout (NEXT_PUBLIC_API_URL env) (Some t)) k
          (sent (ReqLogout (NEXT_PUBLIC_API_URL env) (Some t)) w) /\
    forall r, exists w2,
      job env (k r) (sent (ReqLogout (NEXT_PUBLIC_API_URL env) (Some t)) w)
        = JobDone (inr tt) w2 /\
      logged_out w w2 /\
      requests w2 = (requests w ++ [ReqLogout (NEXT_PUBLIC_API_URL env) (Some t)])%list.
Proof.
  intros Htok Ht Hc.
  apply no_cleanup_faults in Hc. destruct Hc as (F1 & F2 & F3 & F4).
  eexists. split.
  { unfold handleSessionTimeout, logout.
    cbn [job bind try_catch call interp fst snd]. unfold guarded.
    rewrite F1, Htok. cbn [job bind try_catch call interp fst snd settle truthy_opt_string].
    rewrite Ht. cbn [job bind try_catch call interp fst snd settle fetch].
    reflexivity. }
  intro r. destruct r as [err|resp]; eexists.
  all: split; [apply wp_done_eq; cbv beta iota; wp_resume;
               split; reflexivity|].
  all: unfold logged_out; cbn; auto 12.
Qed.

(** X10.  When the countdown fires in a state with nothing pending (and
    the local cleanup calls do not throw): the turn of [handleSessionTimeout]
    and, if there was a token, the turn after the logout notification
    settles - whatever its answer - leave the store empty, the user [null],
    [/login] pushed and nothing pending; the only request sent is the
    notification with the stored token; and the countdown cannot fire
    again. *)
Theorem session_timeout_signs_out env s r :
  countdown_armed env (world s) = true -> tasks s = [] ->
  local_cleanup_throws env = false ->
  exists s',
    run_events env
      (EvSessionTimeout ::
       (if truthy_opt_string (token (world s)) then [EvFetchSettles 0 r] else []))
      s = Some s' /\
    logged_out (world s) (world s') /\
    tasks s' = [] /\
    requests (world s') =
      (requests (world s) ++
       (if truthy_opt_string (token (world s))
        then [ReqLogout (NEXT_PUBLIC_API_URL env) (token (world s))] else []))%list /\
    dispatch env EvSessionTimeout s' = None.
Proof.
  intros Harm Ht Hc.
  destruct s as [w ts deps]. cbn [world tasks] in *. subst ts.
  assert (Hdone : forall w', logged_out w w' ->
            dispatch env EvSessionTimeout (mkSys w' [] deps) = None).
  { intros w' (_ & _ & Hu & _). unfold dispatch. cbn [world].
    rewrite (no_user_not_armed env w' Hu). reflexivity. }
  destruct (truthy_opt_string (token w)) eqn:Htok.
  - destruct (token w) as [t|] eqn:Etok; [|discriminate].
    cbn [truthy_opt_string] in Htok.
    destruct (timeout_turns env w t Etok Htok Hc) as (k & He1 & Hk).
    destruct (Hk r) as (w2 & He2 & Hout & Hreq).
    exists (mkSys w2 [] deps).
    assert (D1 : dispatch env EvSessionTimeout (mkSys w [] deps)
              = Some (mkSys (sent (ReqLogout (NEXT_PUBLIC_API_URL env) (Some t)) w)
                        [FetchTask (ReqLogout (NEXT_PUBLIC_API_URL env) (Some t)) k] deps)).
    { unfold dispatch, spawn. cbn [world tasks auth_effect_deps].
      rewrite Harm, He1. reflexivity. }
    assert (D2 : dispatch env (EvFetchSettles 0 r)
                   (mkSys (sent (ReqLogout (NEXT_PUBLIC_API_URL env) (Some t)) w)
                        [FetchTask (ReqLogout (NEXT_PUBLIC_API_URL env) (Some t)) k] deps)
              = Some (mkSys w2 [] deps)).
    { unfold dispatch, spawn.
      cbn [world tasks auth_effect_deps nth_error remove_nth].
      rewrite He2. reflexivity. }
    cbn [run_events]. rewrite D1, D2. cbn [world tasks].
    split; [reflexivity|]. split; [exact Hout|]. split; [reflexivity|].
    split; [exact Hreq|]. apply Hdone, Hout.
  - set (w2 := set_pushes (pushes w ++ ["/login"])
                 (set_tokenInfo None
                    (set_user None (set_cached_user None (set_token None w))))).
    assert (He : job env handleSessionTimeout w = JobDone (inr tt) w2).
    { apply no_cleanup_faults in Hc. destruct Hc as (F1 & F2 & F3 & F4).
      apply wp_done_eq. unfold handleSessionTimeout, logout.
      wp_straight. auto. }
    assert (D1 : dispatch env EvSessionTimeout (mkSys w [] deps)
                 = Some (mkSys w2 [] deps)).
    { unfold dispatch, spawn. cbn [world tasks auth_effect_deps].
      rewrite Harm, He. reflexivity. }
    assert (Hout : logged_out w w2).
    { unfold logged_out. cbn. auto 12. }
    exists (mkSys w2 [] deps).
    cbn [run_events]. rewrite D1. cbn [world tasks].
    split; [reflexivity|]. split; [exact Hout|]. split; [reflexivity|].
    split; [cbn; rewrite app_nil_r; reflexivity|]. apply Hdone, Hout.
Qed.


(** X9.  When [removeToken] throws, [logout] returns [false] with the
    local session intact - token, cached user and current user as they were,
    no redirect - although the logout notification has already been sent
    for a truthy token. *)
Theorem logout_failed_cleanup_keeps_session env net w err :
  faults env CGetToken = None ->
  faults env CRemoveToken = Some err ->
  let r := run env net logout w in
  fst r = inr false /\
  token (snd r) = token w /\ cached_user (snd r) = cached_user w /\
  user (snd r) = user w /\ pushes (snd r) = pushes w /\
  requests (snd r) =
    (requests w ++
     (if truthy_opt_string (token w)
      then [ReqLogout (NEXT_PUBLIC_API_URL env) (token w)] else []))%list.
Proof.
  intros F1 F2 r; subst r.
  apply wp_run with (Q := fun r w' =>
    r = inr false /\
    token w' = token w /\ cached_user w' = cached_user w /\
    user w' = user w /\ pushes w' = pushes w /\
    requests w' =
      (requests w ++
       (if truthy_opt_string (token w)
        then [ReqLogout (NEXT_PUBLIC_API_URL env) (token w)] else []))%list).
  unfold logout. wp_straight.
  destruct (truthy_opt_string (token w)) eqn:Htok.
  - wp_straight. apply wp_fetch; [exact I|intros r _].
    destruct r; wp_straight; auto 10.
  - wp_straight. rewrite app_nil_r. auto 10.
Qed.


Lemma refreshUser_without_token_witness :
  exists w',
    exec Sample.browser refreshUser (Sample.mounted_page None false (Some Sample.alice))
      = Finished (inr tt) w' /\
    user w' = None /\ requests w' = [].
Proof.
  destruct (refreshUser_without_token Sample.browser
              (Sample.mounted_page None false (Some Sample.alice))
              eq_refl eq_refl) as (w' & He & Hu & Hr & _).
  exists w'. auto.
Defined.

Lemma refreshUser_without_identity_key_witness :
  exists w',
    exec Scenario.no_api refreshUser (Sample.mounted_page (Some "tok") false None)
      = Finished (inr tt) w' /\
    user w' = None /\ requests w' = [] /\ token w' = Some "tok".
Proof.
  destruct (refreshUser_without_identity_key Scenario.no_api
              (Sample.mounted_page (Some "tok") false None)
              eq_refl eq_refl eq_refl) as (w' & He & Hu & Hr & Ht & _).
  exists w'. auto.
Defined.

Lemma refreshUser_adopts_fetched_user_witness :
  let w := Sample.mounted_page (Some "tok") false None in
  let r := run Sample.browser Scenario.identifying refreshUser w in
  user (snd r) = Some Sample.alice /\ cached_user (snd r) = None.
Proof.
  destruct (refreshUser_adopts_fetched_user Sample.browser Scenario.identifying
              (Sample.mounted_page (Some "tok") false None)
              _ _ _ _ _ Sample.alice eq_refl eq_refl eq_refl eq_refl eq_refl eq_refl)
    as (Hr & Hw).
  cbv zeta. rewrite Hr, Hw. split; reflexivity.
Defined.

Lemma login_success_witness :
  let w := Sample.mounted_page None false None in
  let r := run Sample.browser Sample.welcoming (login "alice@test" "pw" None) w in
  fst r = inr tt /\ user (snd r) = Some Sample.alice /\
  timers (snd r) = [(RedirectByRole (Some Sample.alice), 100)].
Proof.
  destruct (login_success Sample.browser Sample.welcoming
              (Sample.mounted_page None false None) "alice@test" "pw" None
              (mkLoginData (Some Sample.alice) "tok2") eq_refl eq_refl eq_refl)
    as (Hr & _ & Hu & _ & Ht & _).
  auto.
Defined.

Lemma login_failing_after_sign_in_witness :
  let w := Sample.mounted_page None false None in
  let r := run Scenario.expiry_unreadable Sample.welcoming (login "alice@test" "pw" None) w in
  fst r = inl (Error "Invalid token") /\ user (snd r) = Some Sample.alice /\
  timers (snd r) = [].
Proof.
  destruct (login_failing_after_sign_in Scenario.expiry_unreadable Sample.welcoming
              (Sample.mounted_page None false None) "alice@test" "pw" None
              (mkLoginData (Some Sample.alice) "tok2") (Error "Invalid token")
              eq_refl eq_refl eq_refl)
    as (Hr & Hu & _ & Ht & _).
  auto.
Defined.

Lemma logout_twice_witness :
  let w := Sample.mounted_page (Some "tok") false (Some Sample.alice) in
  let w1 := snd (run Sample.browser Sample.offline logout w) in
  exists w2,
    exec Sample.browser logout w1 = Finished (inr true) w2 /\
    requests w2 = requests w1 /\ pushes w2 = ["/login"; "/login"].
Proof.
  destruct (logout_twice Sample.browser Sample.offline
              (Sample.mounted_page (Some "tok") false (Some Sample.alice)) eq_refl)
    as (w2 & He & Hr & _ & _ & _ & Hp).
  exists w2. auto.
Defined.

Lemma login_then_redirect_witness :
  let s := mkSys (Sample.mounted_page None false None) [] (Some true) in
  exists s',
    run_events Sample.browser
      [EvLogin "alice@test" "pw" None;
       EvLoginSettles 0 (inr (mkLoginData (Some Sample.alice) "tok2"));
       EvTimerFires 0] s = Some s' /\
    pushes (world s') = ["/admin"].
Proof.
  destruct (login_then_redirect Sample.browser
              (mkSys (Sample.mounted_page None false None) [] (Some true))
              "alice@test" "pw" None (mkLoginData (Some Sample.alice) "tok2")
              eq_refl eq_refl eq_refl eq_refl eq_refl eq_refl)
    as (s' & Hrun & _ & Hp & _).
  exists s'. auto.
Defined.

Lemma session_timeout_signs_out_witness :
  let w := set_user (Some Sample.alice)
             (Sample.mounted_page (Some "tok") false (Some Sample.alice)) in
  exists s',
    run_events Sample.browser
      [EvSessionTimeout; EvFetchSettles 0 (inl (Error "Failed to fetch"))]
      (mkSys w [] (Some true)) = Some s' /\
    user (world s') = None /\ token (world s') = None /\
    dispatch Sample.browser EvSessionTimeout s' = None.
Proof.
  destruct (session_timeout_signs_out Sample.browser
              (mkSys (set_user (Some Sample.alice)
                        (Sample.mounted_page (Some "tok") false (Some Sample.alice)))
                     [] (Some true))
              (inl (Error "Failed to fetch")) eq_refl eq_refl eq_refl)
    as (s' & Hrun & (Ht & _ & Hu & _) & _ & _ & Hd).
  exists s'. auto.
Defined.

Lemma logout_failed_cleanup_keeps_session_witness :
  let w := set_user (Some Sample.alice)
             (Sample.mounted_page (Some "tok") false (Some Sample.alice)) in
  let r := run Scenario.store_jammed (Sample.answering 200) logout w in
  fst r = inr false /\ token (snd r) = Some "tok" /\
  user (snd r) = Some Sample.alice /\
  requests (snd r) = [ReqLogout (Some "https://api.test") (Some "tok")].
Proof.
  destruct (logout_failed_cleanup_keeps_session Scenario.store_jammed (Sample.answering 200)
              (set_user (Some Sample.alice)
                 (Sample.mounted_page (Some "tok") false (Some Sample.alice)))
              (Error "QuotaExceededError") eq_refl eq_refl)
    as (Hr & Ht & _ & Hu & _ & Hq).
  auto.
Defined.

(** ** The rates screen: pagination *)

Section RatesPagination.
Import RatesManagement.

Lemma ceil_div_bounds n :
  0 <= n ->
  10 * (Math_ceil_div n 10 - 1) < n <= 10 * Math_ceil_div n 10.
Proof.
  intro Hn. unfold Math_ceil_div.
  pose proof (Z.div_mod (- n) 10 ltac:(lia)) as Hd.
  pose proof (Z.mod_pos_bound (- n) 10 ltac:(lia)) as Hm.
  lia.
Qed.

Lemma totalPages_bounds st :
  10 * (totalPages st - 1) < totalItems st <= 10 * totalPages st /\
  0 <= totalPages st.
Proof.
  unfold totalPages, itemsPerPage.
  pose proof (ceil_div_bounds (totalItems st)) as H.
  assert (0 <= totalItems st) by (unfold totalItems; lia).
  lia.
Qed.

(** A slice within the array. *)
Lemma slice_within A (l : list A) a b :
  0 <= a -> 0 <= b <= Z.of_nat (length l) ->
  slice l a b = firstn (Z.to_nat (b - a)) (skipn (Z.to_nat a) l).
Proof.
  intros Ha Hb. unfold slice.
  destruct (a <? 0) eqn:Ea; [apply Z.ltb_lt in Ea; lia|].
  destruct (b <? 0) eqn:Eb; [apply Z.ltb_lt in Eb; lia|].
  rewrite (Z.min_l b) by lia.
  destruct (Z.le_gt_cases a (Z.of_nat (length l))) as [Hle|Hgt].
  - rewrite Z.min_l by lia. reflexivity.
  - rewrite Z.min_r by lia.
    replace (Z.to_nat (b - Z.of_nat (length l))) with 0%nat by lia.
    replace (Z.to_nat (b - a)) with 0%nat by lia. reflexivity.
Qed.

(** The rows of a page, as a window of ten into the filtered list. *)
Lemma currentItems_window st :
  1 <= currentPage st ->
  currentItems st =
    firstn 10 (skipn (Z.to_nat (startIndex st)) (filteredRates st)).
Proof.
  intro Hp. unfold currentItems.
  assert (Hs : 0 <= startIndex st) by (unfold startIndex, itemsPerPage; lia).
  assert (He : 0 <= endIndex st <= Z.of_nat (length (filteredRates st))).
  { unfold endIndex, totalItems, itemsPerPage. lia. }
  rewrite slice_within by assumption.
  set (rest := skipn (Z.to_nat (startIndex st)) (filteredRates st)).
  assert (Hlen : length rest =
                 (length (filteredRates st) - Z.to_nat (startIndex st))%nat).
  { unfold rest. apply length_skipn. }
  unfold endIndex, totalItems, itemsPerPage in *.
  destruct (Z.le_gt_cases (startIndex st + 10)
              (Z.of_nat (length (filteredRates st)))) as [Hfull|Hpart].
  - rewrite Z.min_l by lia.
    replace (Z.to_nat (startIndex st + 10 - startIndex st)) with 10%nat by lia.
    reflexivity.
  - rewrite Z.min_r by lia.
    rewrite !firstn_all2; [reflexivity|lia|lia].
Qed.

Lemma In_window A (x : A) n m l : In x (firstn n (skipn m l)) -> In x l.
Proof.
  intro H.
  rewrite <- (firstn_skipn m l). apply in_or_app. right.
  rewrite <- (firstn_skipn n (skipn m l)). apply in_or_app. left. exact H.
Qed.

Lemma chunks_concat A (n : nat) : forall (l : list A),
  (length l <= 10 * n)%nat ->
  flat_map (fun i => firstn 10 (skipn (10 * i) l)) (seq 0 n) = l.
Proof.
  induction n as [|n IH]; intros l Hl.
  - destruct l; [reflexivity|cbn in Hl; lia].
  - rewrite <- cons_seq, <- seq_shift. cbn [flat_map].
    rewrite flat_map_concat_map, map_map, <- flat_map_concat_map.
    replace (skipn (10 * 0) l) with l by reflexivity.
    transitivity (firstn 10 l ++ skipn 10 l)%list; [|apply firstn_skipn].
    f_equal.
    rewrite <- (IH (skipn 10 l)) at 1 by (rewrite length_skipn; lia).
    apply flat_map_ext. intro i.
    rewrite skipn_skipn. do 2 f_equal. lia.
Qed.

(** X11.  The pages cut the filtered list into consecutive pieces: showing page
    1, 2, ..., [totalPages] one after the other shows every filtered rate
    exactly once and in order. *)
Theorem pages_partition_the_rates st :
  flat_map (fun p => currentItems (setCurrentPage (Z.of_nat p) st))
           (seq 1 (Z.to_nat (totalPages st)))
  = filteredRates st.
Proof.
  rewrite <- seq_shift, flat_map_concat_map, map_map, <- flat_map_concat_map.
  etransitivity; [|apply (chunks_concat _ (Z.to_nat (totalPages st)))].
  - apply flat_map_ext. intro i.
    rewrite currentItems_window by (cbn; lia).
    unfold startIndex, itemsPerPage. cbn [currentPage filteredRates setCurrentPage].
    do 2 f_equal. lia.
  - pose proof (totalPages_bounds st) as H. unfold totalItems in H. lia.
Qed.

Lemma page_rows_count st :
  1 <= currentPage st <= totalPages st ->
  Z.of_nat (length (currentItems st)) = endIndex st - startIndex st /\
  1 <= endIndex st - startIndex st <= itemsPerPage /\
  (currentPage st < totalPages st ->
   endIndex st - startIndex st = itemsPerPage).
Proof.
  intros [Hlo Hhi].
  pose proof (totalPages_bounds st) as [[Hb1 Hb2] _].
  rewrite currentItems_window by assumption.
  rewrite length_firstn, length_skipn.
  unfold endIndex, startIndex, totalItems, itemsPerPage in *. lia.
Qed.

(** X12.  On a page between 1 and [totalPages] the table has between one and ten
    rows, ten on every page but the last; their number is the one the label
    "Showing a to b" announces, and the serial number [startIndex + index + 1]
    of a row is its position in the filtered list. *)
Theorem page_rows_match_label st :
  1 <= currentPage st <= totalPages st ->
  Z.of_nat (length (currentItems st)) = endIndex st - startIndex st /\
  1 <= endIndex st - startIndex st <= itemsPerPage /\
  (currentPage st < totalPages st ->
   endIndex st - startIndex st = itemsPerPage) /\
  (forall index r,
     nth_error (currentItems st) index = Some r ->
     nth_error (filteredRates st) (Z.to_nat (startIndex st) + index) = Some r).
Proof.
  intro Hp.
  destruct (page_rows_count st Hp) as (H1 & H2 & H3).
  split; [exact H1|]. split; [exact H2|]. split; [exact H3|].
  intros index r Hr.
  rewrite currentItems_window in Hr by lia.
  assert (Hi : (index < 10)%nat).
  { assert (Hn : nth_error (firstn 10 (skipn (Z.to_nat (startIndex st))
                                         (filteredRates st))) index <> None)
      by (rewrite Hr; discriminate).
    apply nth_error_Some in Hn. rewrite length_firstn in Hn. lia. }
  rewrite nth_error_firstn in Hr.
  destruct (Nat.ltb_spec index 10); [|lia].
  rewrite nth_error_skipn in Hr. exact Hr.
Qed.

(** A page beyond the last one is empty. *)
Lemma page_beyond_the_end st :
  1 <= currentPage st -> totalPages st < currentPage st ->
  currentItems st = [].
Proof.
  intros Hlo Hhi.
  pose proof (totalPages_bounds st) as [[Hb1 Hb2] _].
  rewrite currentItems_window by assumption.
  rewrite skipn_all2; [reflexivity|].
  unfold startIndex, totalItems, itemsPerPage in *. lia.
Qed.

(** The window of page buttons. *)
Lemma page_window st :
  1 <= startPage st /\ endPage st <= totalPages st /\
  endPage st - startPage st + 1 = Z.min 5 (totalPages st) /\
  (1 <= currentPage st <= totalPages st ->
   startPage st <= currentPage st <= endPage st).
Proof.
  pose proof (totalPages_bounds st) as [_ Htp].
  unfold startPage, endPage, startPage0, maxVisiblePages.
  change (5 / 2) with 2.
  destruct (Z.ltb_spec
              (Z.min (totalPages st) (Z.max 1 (currentPage st - 2) + 5 - 1)
               - Z.max 1 (currentPage st - 2) + 1) 5); lia.
Qed.

Lemma pageNumbers_range st :
  exists l,
    pageNumbers st = Some l /\
    length l = Z.to_nat (endPage st - startPage st + 1) /\
    forall p, In p l <-> startPage st <= p <= endPage st.
Proof.
  pose proof (totalPages_bounds st) as [_ Htp].
  destruct (page_window st) as (H1 & H2 & H3 & _).
  eexists. split; [|split].
  - unfold pageNumbers.
    destruct (Z.ltb_spec (endPage st - startPage st + 1) 0); [lia|reflexivity].
  - rewrite length_map, length_seq. reflexivity.
  - intro p. rewrite in_map_iff. split.
    + intros (i & <- & Hi). apply in_seq in Hi. lia.
    + intro Hp. exists (Z.to_nat (p - startPage st)). split; [lia|].
      apply in_seq. lia.
Qed.

(** X13.  The page buttons never fail to render, whatever the state: there are
    [min(5, totalPages)] of them, each numbers an existing page, and the
    current page is among them whenever it exists. *)
Theorem page_buttons_window st :
  exists l,
    pageNumbers st = Some l /\
    Z.of_nat (length l) = Z.min maxVisiblePages (totalPages st) /\
    (forall p, In p l <-> startPage st <= p <= endPage st) /\
    (forall p, In p l -> 1 <= p <= totalPages st) /\
    (1 <= currentPage st <= totalPages st -> In (currentPage st) l).
Proof.
  pose proof (totalPages_bounds st) as [_ Htp].
  destruct (page_window st) as (H1 & H2 & H3 & H4).
  destruct (pageNumbers_range st) as (l & Hl & Hlen & Hin).
  exists l. split; [exact Hl|]. split; [|split; [exact Hin|split]].
  - rewrite Hlen. unfold maxVisiblePages. lia.
  - intros p Hp. apply Hin in Hp. lia.
  - intro Hc. apply Hin. auto.
Qed.

(** X14.  A click in the pagination bar, from a page that exists, leads to a page
    that exists: Previous and Next move by exactly one page (their clamps
    never bite, the buttons being disabled at the ends), and nothing else
    of the state changes. *)
Theorem page_click_stays_in_range c st st' :
  1 <= currentPage st <= totalPages st ->
  page_click c st = Some st' ->
  1 <= currentPage st' <= totalPages st' /\
  st' = setCurrentPage (currentPage st') st /\
  match c with
  | ClickPrevious => currentPage st' = currentPage st - 1
  | ClickNext => currentPage st' = currentPage st + 1
  | ClickPage pageNum => currentPage st' = pageNum
  end.
Proof.
  intros Hr Hc. unfold page_click in Hc.
  destruct (negb (shows_pagination st)); [discriminate|].
  destruct c as [| |pageNum].
  - destruct (Z.eqb_spec (currentPage st) 1); [discriminate|].
    injection Hc as <-. cbn. unfold totalPages, totalItems in *. cbn.
    rewrite Z.max_l by lia. repeat split; lia.
  - destruct (Z.eqb_spec (currentPage st) (totalPages st)); [discriminate|].
    injection Hc as <-. cbn. unfold totalPages, totalItems in *. cbn.
    rewrite Z.min_l by lia. repeat split; lia.
  - destruct (pageNumbers_range st) as (l & Hl & _ & Hrange).
    destruct (page_window st) as (H1 & H2 & _).
    rewrite Hl in Hc.
    destruct (existsb (Z.eqb pageNum) l) eqn:Ex; [|discriminate].
    injection Hc as <-.
    apply existsb_exists in Ex. destruct Ex as (p & Hp & Heq).
    apply Z.eqb_eq in Heq. subst p. apply Hrange in Hp.
    cbn. unfold totalPages, totalItems in *. cbn. repeat split; lia.
Qed.

End RatesPagination.

(** ** The rates screen: search, test data and loading *)

Section RatesLoading.
Import RatesManagement.

Variable pf : Platform.

(** X15.  After any search the table is on its first page and shows the first
    ten matches (all of them when there are fewer); the loaded rates are
    untouched, every row shown is one of them, and a term that is blank
    after trimming brings all of them back. *)
Theorem handleSearch_shows_first_matches term st :
  let st' := handleSearch pf term st in
  currentPage st' = 1 /\
  searchTerm st' = term /\
  carrierRates st' = carrierRates st /\
  currentItems st' = firstn 10 (filteredRates st') /\
  filteredRates st' =
    (if truthy_string (trim pf term)
     then filter (matches pf term) (carrierRates st)
     else carrierRates st) /\
  (forall r, In r (filteredRates st') -> In r (carrierRates st)) /\
  (filteredRates st' <> [] -> currentItems st' <> []).
Proof.
  intro st'.
  assert (Hp : currentPage st' = 1).
  { unfold st', handleSearch. destruct (negb (truthy_string (trim pf term))); reflexivity. }
  assert (Hw : currentItems st' = firstn 10 (filteredRates st')).
  { rewrite currentItems_window by lia. unfold startIndex. rewrite Hp. reflexivity. }
  assert (Hf : filteredRates st' =
    (if truthy_string (trim pf term)
     then filter (matches pf term) (carrierRates st)
     else carrierRates st)).
  { unfold st', handleSearch. destruct (truthy_string (trim pf term)); reflexivity. }
  repeat split; try assumption.
  - unfold st', handleSearch. destruct (negb (truthy_string (trim pf term))); reflexivity.
  - unfold st', handleSearch. destruct (negb (truthy_string (trim pf term))); reflexivity.
  - intro r. rewrite Hf. destruct (truthy_string (trim pf term)); [|auto].
    intro Hr. apply filter_In in Hr. tauto.
  - rewrite Hw. destruct (filteredRates st'); [auto|discriminate].
Qed.

(** X16.  [useMockData] loads twenty test rates, that is two pages, and shows the
    table, but it leaves the current page where it was: from page three or
    later the table shows no row although twenty rates are loaded. *)
Theorem useMockData_keeps_the_page st :
  let st' := useMockData pf st in
  currentPage st' = currentPage st /\
  totalItems st' = 20 /\ totalPages st' = 2 /\
  shows_table st' = true /\
  (3 <= currentPage st -> currentItems st' = []) /\
  (1 <= currentPage st <= 2 -> Z.of_nat (length (currentItems st')) = 10).
Proof.
  intro st'.
  assert (Hn : totalItems st' = 20) by reflexivity.
  assert (Ht : totalPages st' = 2) by reflexivity.
  assert (Hc : currentPage st' = currentPage st) by reflexivity.
  repeat split; try assumption.
  - intro Hp. apply page_beyond_the_end; lia.
  - intro Hp.
    destruct (page_rows_count st') as (Hl & _); [lia|].
    rewrite Hl. unfold endIndex, startIndex, itemsPerPage. rewrite Hn, Hc. lia.
Qed.

Lemma or_else_truthy a b :
  truthy_string b = true -> truthy_string (or_else a b) = true.
Proof.
  intro Hb. unfold or_else. destruct (truthy_string a) eqn:Ha; assumption.
Qed.

(** Run [fetchCarrierData] on the answers at hand. *)
Ltac run_steps :=
  unfold fetchCarrierData, and_then, catch, finally, update, settled, pure,
    raise, read, appendDebugInfo;
  cbn [fst snd].

Ltac split_steps :=
  repeat (match goal with
          | |- context [match getToken ?sv with _ => _ end] =>
              destruct (getToken sv) as [?e|[?tok|]] eqn:?
          | |- context [if truthy_string ?t then _ else _] =>
              destruct (truthy_string t) eqn:?
          | |- context [match fetch_reply ?sv ?u ?t with _ => _ end] =>
              destruct (fetch_reply sv u t) as [?e|?res] eqn:?
          | |- context [if negb (ok ?r) then _ else _] =>
              destruct (ok r) eqn:?
          | |- context [match text ?r with _ => _ end] =>
              destruct (text r) as [?e|?body] eqn:?
          | |- context [match json ?r with _ => _ end] =>
              destruct (json r) as [?e|[|?l|[?l|]|?ty]] eqn:?
          end; cbn [fst snd negb]).

(** X17.  [fetchCarrierData] never throws and always ends with the spinner off.
    Either it succeeded: no error, the table shown from its first page with
    nothing filtered out; or it failed: both lists are emptied and the error
    banner is shown, with a message that is never empty.  The selected
    carrier, the search term and, on failure, the current page are left as
    they were. *)
Theorem fetchCarrierData_always_settles sv carrierId st :
  let r := fetchCarrierData pf sv carrierId st in
  fst r = inr tt /\
  loading (snd r) = false /\
  selectedCarrier (snd r) = selectedCarrier st /\
  searchTerm (snd r) = searchTerm st /\
  ((error (snd r) = None /\
    filteredRates (snd r) = carrierRates (snd r) /\
    currentPage (snd r) = 1 /\
    shows_table (snd r) = true)
   \/
   (truthy_opt_string (error (snd r)) = true /\
    carrierRates (snd r) = [] /\ filteredRates (snd r) = [] /\
    currentPage (snd r) = currentPage st /\
    shows_error (snd r) = true)).
Proof.
  cbv zeta. run_steps. split_steps.
  all: cbn -[or_else String.append].
  all: repeat (split; [reflexivity|]).
  all: try (left; repeat split; reflexivity).
  all: right; unfold shows_error; cbn -[or_else String.append];
       rewrite or_else_truthy by reflexivity; repeat split; reflexivity.
Qed.

(** X18.  Without a token [fetchCarrierData] asks the network nothing: it fails
    with the message "Authentication token not found" and an empty table. *)
Theorem fetchCarrierData_without_token sv carrierId st tok :
  getToken sv = inr tok -> truthy_opt_string tok = false ->
  let r := fetchCarrierData pf sv carrierId st in
  requests (snd r) = requests st /\
  error (snd r) = Some "Authentication token not found" /\
  carrierRates (snd r) = [] /\ filteredRates (snd r) = [] /\
  shows_error (snd r) = true.
Proof.
  intros Hg Ht. cbv zeta. run_steps. rewrite Hg.
  destruct tok as [tok|]; cbn [truthy_opt_string] in Ht; [rewrite Ht|];
    cbn; auto.
Qed.

(** X19.  With a token, [fetchCarrierData] sends one request for the carrier,
    bearing the token.  When the response is [ok] its body decides: the
    rates are the array of the body or of its [Details]; any other shape
    loads an empty table without an error; only the body [null] fails, with
    the engine's [TypeError]. *)
Theorem fetchCarrierData_reads_the_body sv carrierId st tok res data :
  getToken sv = inr (Some tok) -> truthy_string tok = true ->
  fetch_reply sv (carrier_url pf carrierId) tok = inr res ->
  ok res = true -> json res = inr data ->
  let r := fetchCarrierData pf sv carrierId st in
  requests (snd r) = (requests st ++ [(carrier_url pf carrierId, tok)])%list /\
  match data with
  | JNullData =>
      error (snd r) =
        Some (or_else (errorMessage (null_property_error pf))
                      "Failed to fetch carrier data") /\
      carrierRates (snd r) = [] /\ filteredRates (snd r) = []
  | _ =>
      error (snd r) = None /\
      carrierRates (snd r) = listed_rates data /\
      filteredRates (snd r) = listed_rates data /\
      currentPage (snd r) = 1 /\
      currentItems (snd r) = firstn 10 (listed_rates data)
  end.
Proof.
  intros Hg Ht Hf Hok Hj. cbv zeta. run_steps. unfold carrier_url in *.
  rewrite Hg, Ht. cbn [fst snd]. rewrite Hf. cbn [fst snd]. rewrite Hok.
  cbn [fst snd negb]. rewrite Hj. cbn [fst snd].
  destruct data as [|l|[l|]|ty]; cbn -[or_else String.append firstn];
    (split; [reflexivity|]); repeat (split; [reflexivity|]);
    try reflexivity.
  all: rewrite currentItems_window by (cbn; lia); reflexivity.
Qed.

(** X20.  A response that is not [ok] fails the load before the body is parsed:
    the message is "Error <status>: <statusText>", unless reading the error
    text itself fails, and then it is that failure's message. *)
Theorem fetchCarrierData_http_error sv carrierId st tok res :
  getToken sv = inr (Some tok) -> truthy_string tok = true ->
  fetch_reply sv (carrier_url pf carrierId) tok = inr res ->
  ok res = false ->
  let r := fetchCarrierData pf sv carrierId st in
  error (snd r) =
    Some (match text res with
          | inr _ => "Error " ++ num pf (status res) ++ ": " ++ statusText res
          | inl e => or_else (errorMessage e) "Failed to fetch carrier data"
          end) /\
  carrierRates (snd r) = [] /\ filteredRates (snd r) = [] /\
  loading (snd r) = false /\ currentPage (snd r) = currentPage st.
Proof.
  intros Hg Ht Hf Hok. cbv zeta. run_steps. unfold carrier_url in *.
  rewrite Hg, Ht. cbn [fst snd]. rewrite Hf. cbn [fst snd]. rewrite Hok.
  cbn [fst snd negb].
  destruct (text res) as [e|body]; cbn -[or_else String.append]; auto.
Qed.

(** X21.  The effect without a token only sets the error: [loading] is left as it
    is.  On the first render [loading] is [true], so the screen keeps its
    spinner and never shows the message. *)
Theorem fetchEffect_without_token sv st tok :
  getToken sv = inr tok -> truthy_opt_string tok = false ->
  loading st = true ->
  let r := fetchEffect pf sv st in
  fst r = inr tt /\
  snd r = setError (Some "Authentication token not found. Please log in again.") st /\
  shows_spinner (snd r) = true /\
  shows_error (snd r) = false /\
  shows_table (snd r) = false.
Proof.
  intros Hg Ht Hl. cbv zeta.
  unfold fetchEffect, and_then, settled, update. rewrite Hg. cbn [fst snd].
  rewrite Ht. cbn [fst snd].
  unfold shows_spinner, shows_error, shows_table. cbn. rewrite Hl.
  repeat split; reflexivity.
Qed.

(** X22.  After a refresh the search box and the table agree, however the
    request ends: the term is empty and no loaded rate is filtered out. *)
Theorem handleRefresh_clears_the_search sv st :
  let r := handleRefresh pf sv st in
  fst r = inr tt /\
  searchTerm (snd r) = EmptyString /\
  filteredRates (snd r) = carrierRates (snd r) /\
  loading (snd r) = false /\
  selectedCarrier (snd r) = selectedCarrier st.
Proof.
  cbv zeta. unfold handleRefresh, detached, read. run_steps. split_steps.
  all: cbn -[or_else String.append]; repeat split; reflexivity.
Qed.

(** What a load leaves of the lists and of the page, however it ends. *)
Lemma fetchCarrierData_lists sv carrierId st :
  let r := fetchCarrierData pf sv carrierId st in
  filteredRates (snd r) = carrierRates (snd r) /\
  (currentPage (snd r) = 1 \/ currentPage (snd r) = currentPage st).
Proof.
  cbv zeta. run_steps. split_steps.
  all: cbn -[or_else String.append]; auto.
Qed.

Lemma filter_all A (l : list A) : l = filter (fun _ => true) l.
Proof.
  induction l as [|a l IH]; [reflexivity|]. cbn. f_equal. exact IH.
Qed.

Lemma unfiltered st :
  filteredRates st = carrierRates st -> filtered_from_loaded st.
Proof.
  intro H. exists (fun _ => true). rewrite H. apply filter_all.
Qed.

Lemma page_click_from_one c st st' :
  1 <= currentPage st -> page_click c st = Some st' ->
  1 <= currentPage st' /\
  filteredRates st' = filteredRates st /\ carrierRates st' = carrierRates st.
Proof.
  intros Hp Hc. unfold page_click in Hc.
  destruct (shows_pagination st) eqn:Hs; [|discriminate]. cbn [negb] in Hc.
  unfold shows_pagination in Hs. apply andb_true_iff in Hs.
  destruct Hs as [_ Ht]. apply Z.ltb_lt in Ht.
  destruct c as [| |pageNum].
  - destruct (currentPage st =? 1); [discriminate|].
    injection Hc as <-. cbn. split; [lia|auto].
  - destruct (currentPage st =? totalPages st); [discriminate|].
    injection Hc as <-. cbn. split; [lia|auto].
  - destruct (pageNumbers_range st) as (l & Hl & _ & Hrange).
    destruct (page_window st) as (H1 & _).
    rewrite Hl in Hc.
    destruct (existsb (Z.eqb pageNum) l) eqn:Ex; [|discriminate].
    injection Hc as <-.
    apply existsb_exists in Ex. destruct Ex as (p & Hin & Heq).
    apply Z.eqb_eq in Heq. subst p. apply Hrange in Hin.
    cbn. split; [lia|auto].
Qed.

Lemma act_keeps a st st' :
  filtered_from_loaded st /\ 1 <= currentPage st ->
  act pf a st = Some st' ->
  filtered_from_loaded st' /\ 1 <= currentPage st'.
Proof.
  intros [Hf Hp] Ha.
  destruct a as [term|carrierId|sv|sv| |c]; cbn [act] in Ha;
    try (injection Ha as <-).
  - unfold handleSearch.
    destruct (negb (truthy_string (trim pf term))); cbn; (split; [|lia]).
    + apply unfiltered. reflexivity.
    + exists (matches pf term). reflexivity.
  - split; [exact Hf|exact Hp].
  - unfold fetchEffect, and_then, settled, update, read, detached.
    destruct (getToken sv) as [e|tok]; cbn [fst snd]; [auto|].
    destruct (truthy_opt_string tok); cbn [fst snd]; [|auto].
    destruct (fetchCarrierData_lists sv (selectedCarrier st) st) as (Hl & Hc).
    split; [apply unfiltered; exact Hl|destruct Hc as [-> | ->]; lia].
  - unfold handleRefresh, and_then, update, read, detached. cbn [fst snd].
    destruct (fetchCarrierData_lists sv (selectedCarrier st) st) as (Hl & Hc).
    split; [apply unfiltered; exact Hl|].
    cbn [currentPage setSearchTerm]. destruct Hc as [-> | ->]; lia.
  - split; [apply unfiltered; reflexivity|exact Hp].
  - destruct (page_click_from_one c st st' Hp Ha) as (Hp' & Hfl & Hcl).
    split; [|exact Hp'].
    destruct Hf as (keep & Hk). exists keep. rewrite Hfl, Hcl. exact Hk.
Qed.

Lemma run_actions_keep l : forall st st',
  filtered_from_loaded st /\ 1 <= currentPage st ->
  run_actions pf l st = Some st' ->
  filtered_from_loaded st' /\ 1 <= currentPage st'.
Proof.
  induction l as [|a l IH]; intros st st' Hinv Hrun; cbn [run_actions] in Hrun.
  - injection Hrun as <-. exact Hinv.
  - destruct (act pf a st) as [st1|] eqn:Ha; [|discriminate].
    apply (IH st1 st'); [|exact Hrun].
    apply (act_keeps a st st1 Hinv Ha).
Qed.

(** X23.  Whatever the user does and whatever the network answers, from the first
    render on: the filtered list is the loaded list with some rates left
    out, the page number never drops below 1, and every row of the table is
    a loaded rate. *)
Theorem table_rows_are_loaded_rates l st' :
  run_actions pf l initial = Some st' ->
  filtered_from_loaded st' /\
  1 <= currentPage st' /\
  (forall r, In r (currentItems st') -> In r (carrierRates st')).
Proof.
  intro Hrun.
  destruct (run_actions_keep l initial st') as (Hf & Hp); [|exact Hrun|].
  { split; [apply unfiltered; reflexivity|cbn; lia]. }
  split; [exact Hf|]. split; [exact Hp|].
  intros r Hr. rewrite currentItems_window in Hr by exact Hp.
  apply In_window in Hr.
  destruct Hf as (keep & Hk). rewrite Hk in Hr.
  apply filter_In in Hr. tauto.
Qed.

End RatesLoading.

(** ** The rates screen: instances *)

Section RatesInstances.
Import RatesManagement.

Lemma page_rows_match_label_witness :
  let st := useMockData plain initial in
  1 <= currentPage st <= totalPages st /\
  Z.of_nat (length (currentItems st)) = 10 /\
  nth_error (filteredRates st) 0 = nth_error (currentItems st) 0.
Proof.
  assert (H : 1 <= currentPage (useMockData plain initial)
              <= totalPages (useMockData plain initial))
    by (split; discriminate).
  destruct (page_rows_match_label (useMockData plain initial) H)
    as (Hlen & _ & _ & Hrow).
  split; [exact H|]. split; [exact Hlen|].
  symmetry. exact (Hrow 0%nat _ eq_refl).
Defined.

Lemma page_click_stays_in_range_witness :
  let st := useMockData plain initial in
  page_click ClickNext st = Some (setCurrentPage 2 st) /\
  1 <= 2 <= totalPages (setCurrentPage 2 st).
Proof.
  split; [reflexivity|].
  destruct (page_click_stays_in_range ClickNext (useMockData plain initial)
              (setCurrentPage 2 (useMockData plain initial))) as (H & _).
  - split; discriminate.
  - reflexivity.
  - exact H.
Defined.

Lemma fetchCarrierData_without_token_witness :
  let r := fetchCarrierData plain signed_out 2 initial in
  requests (snd r) = [] /\
  error (snd r) = Some "Authentication token not found" /\
  shows_error (snd r) = true.
Proof.
  destruct (fetchCarrierData_without_token plain signed_out 2 initial None
              eq_refl eq_refl) as (Hr & He & _ & _ & Hs).
  split; [exact Hr|]. split; [exact He|exact Hs].
Defined.

Lemma fetchCarrierData_reads_the_body_witness :
  let res := mkResponse 200 "OK" (inr "{}") (inr (JObjectWith (Some [one_rate]))) in
  let r := fetchCarrierData plain (serving res) 2 initial in
  requests (snd r) = [(carrier_url plain 2, "tok")] /\
  error (snd r) = None /\
  carrierRates (snd r) = [one_rate] /\
  currentItems (snd r) = [one_rate].
Proof.
  destruct (fetchCarrierData_reads_the_body plain
              (serving (mkResponse 200 "OK" (inr "{}")
                          (inr (JObjectWith (Some [one_rate])))))
              2 initial "tok" _ _ eq_refl eq_refl eq_refl eq_refl eq_refl)
    as (Hr & He & Hc & _ & _ & Hi).
  split; [exact Hr|]. split; [exact He|]. split; [exact Hc|exact Hi].
Defined.

Lemma fetchCarrierData_http_error_witness :
  let res := mkResponse 503 "Service Unavailable" (inr "down") (inr JNullData) in
  let r := fetchCarrierData plain (serving res) 2 initial in
  error (snd r) = Some "Error 0: Service Unavailable" /\
  carrierRates (snd r) = [].
Proof.
  destruct (fetchCarrierData_http_error plain
              (serving (mkResponse 503 "Service Unavailable" (inr "down")
                          (inr JNullData)))
              2 initial "tok" _ eq_refl eq_refl eq_refl eq_refl)
    as (He & Hc & _).
  split; [exact He|exact Hc].
Defined.

Lemma fetchEffect_without_token_witness :
  let r := fetchEffect plain signed_out initial in
  shows_spinner (snd r) = true /\ shows_error (snd r) = false /\
  error (snd r) = Some "Authentication token not found. Please log in again.".
Proof.
  destruct (fetchEffect_without_token plain signed_out initial None
              eq_refl eq_refl eq_refl) as (_ & Hs & Hsp & Her & _).
  split; [exact Hsp|]. split; [exact Her|]. rewrite Hs. reflexivity.
Defined.

Lemma table_rows_are_loaded_rates_witness :
  let l := [UseMockData; Search "Carrier"; PageBar ClickNext] in
  exists st',
    run_actions plain l initial = Some st' /\
    currentPage st' = 2 /\
    forall r, In r (currentItems st') -> In r (carrierRates st').
Proof.
  eexists. split; [cbv; reflexivity|]. split; [reflexivity|].
  refine (proj2 (proj2 (table_rows_are_loaded_rates plain
                          [UseMockData; Search "Carrier"; PageBar ClickNext]
                          _ _))).
  cbv. reflexivity.
Defined.

End RatesInstances.
